(** * matchblade: a shallow embedding of the pattern-matching engine and
      of the utilities built around it, with the properties stated in its
      specification. *)

From Stdlib Require Import ZArith Lia Bool DecimalString DecimalNat.
From stdpp Require Import base list gmap strings.

Set Warnings "-register-all".
Open Scope Z_scope.

(* ------------------------------------------------------------------ *)
(** ** JavaScript values *)
(* ------------------------------------------------------------------ *)

Module JS.

(** The runtime values the library handles.  Numbers are integers (no
    NaN, no fractions); a function is referred to by its index in a
    function table (closures are not first-class data here); a Date only
    carries its time stamp; a Promise is an already-created promise that
    settles at time [t], fulfilled with [v] or rejected with reason [v].
    [VObj es] is an ordinary object whose prototype is [Object.prototype]
    and whose own enumerable properties are [es], in the order JavaScript
    lists them (array-index keys first, in ascending order, then the other
    keys in the order they were added). *)
Inductive val : Type :=
  | VUndef
  | VNull
  | VBool (b : bool)
  | VNum (n : Z)
  | VStr (s : string)
  | VArr (xs : list val)
  | VObj (es : list (string * val))
  | VDate (t : Z)
  | VFun (f : nat)
  | VProm (t : nat) (fulfilled : bool) (v : val).

(** [typeof value] *)
Definition typeof (v : val) : string :=
  match v with
  | VUndef => "undefined"
  | VNull => "object"
  | VBool _ => "boolean"
  | VNum _ => "number"
  | VStr _ => "string"
  | VArr _ | VObj _ | VDate _ | VProm _ _ _ => "object"
  | VFun _ => "function"
  end.

(** Truthiness, as used by [&&], [every], [filter(Boolean)] and [if]. *)
Definition truthy (v : val) : bool :=
  match v with
  | VUndef | VNull => false
  | VBool b => b
  | VNum n => negb (n =? 0)
  | VStr s => negb (String.eqb s "")
  | _ => true
  end.

(** [value === other] when [other] is a primitive: a reference-typed
    operand is never identical to a primitive. *)
Definition strict_eq (a b : val) : bool :=
  match a, b with
  | VUndef, VUndef | VNull, VNull => true
  | VBool x, VBool y => Bool.eqb x y
  | VNum x, VNum y => x =? y
  | VStr x, VStr y => String.eqb x y
  | _, _ => false
  end.

(** [Array.isArray(value)] *)
Definition is_array (v : val) : bool :=
  match v with VArr _ => true | _ => false end.

(** The property key of the array index [i] ("0", "1", ...). *)
Definition index_key (i : nat) : string :=
  NilZero.string_of_uint (Nat.to_uint i).

Fixpoint index_lookup (i : nat) (xs : list val) (k : string) : val :=
  match xs with
  | [] => VUndef
  | x :: rest => if String.eqb (index_key i) k then x else index_lookup (S i) rest k
  end.

Fixpoint assoc_lookup (es : list (string * val)) (k : string) : val :=
  match es with
  | [] => VUndef
  | (k', v) :: rest => if String.eqb k' k then v else assoc_lookup rest k
  end.

(** [o[k]] read through the own properties of [o] (array indices and
    [length] for arrays); a key [o] does not have reads as [undefined].
    The prototype chain is not modelled: this is [o[k]] exactly when no
    prototype of [o] defines [k], which holds of every array-index key
    (no prototype of an array, a Date or a plain object has one), of
    [length] on arrays, Dates and plain objects, and of every key outside
    [object_proto_keys] on a plain object.  The characters and length of
    a string and the [length] and [name] of a function are not modelled
    either. *)
Definition get_prop (o : val) (k : string) : val :=
  match o with
  | VObj es => assoc_lookup es k
  | VArr xs =>
      if String.eqb k "length" then VNum (Z.of_nat (length xs))
      else index_lookup 0 xs k
  | _ => VUndef
  end.

(** The own enumerable string-keyed properties, in order
    ([Object.entries], [Object.keys], [{...o}]); strings and the other
    values have none here. *)
Definition own_entries (o : val) : list (string * val) :=
  match o with
  | VObj es => es
  | VArr xs => zip (map index_key (seq 0 (length xs))) xs
  | _ => []
  end.

(** The primitive values: [undefined], [null], booleans, numbers, strings. *)
Definition is_js_primitive (v : val) : bool :=
  match v with VUndef | VNull | VBool _ | VNum _ | VStr _ => true | _ => false end.

(** [typeof value === 'object' && value !== null] *)
Definition is_object (v : val) : bool :=
  match v with VArr _ | VObj _ | VDate _ | VProm _ _ _ => true | _ => false end.

(** The properties every plain object inherits from [Object.prototype]. *)
Definition object_proto_keys : list string :=
  ["constructor"; "__defineGetter__"; "__defineSetter__"; "hasOwnProperty";
   "__lookupGetter__"; "__lookupSetter__"; "isPrototypeOf"; "propertyIsEnumerable";
   "toString"; "valueOf"; "__proto__"; "toLocaleString"].

(** The array index a property key stands for: a canonical decimal
    numeral below 2^32 - 1 ("0", "7", "42", but not "01", "-1" or "1.5"). *)
Definition array_index (k : string) : option N :=
  match NilZero.uint_of_string k with
  | Some u =>
      let n := N.of_uint u in
      if String.eqb (NilZero.string_of_uint (N.to_uint n)) k && (n <? 4294967295)%N
      then Some n else None
  | None => None
  end.

(** A new array-index key [key] (index [n]) takes its place among the
    array-index keys, which come first and in ascending order. *)
Fixpoint insert_index (n : N) (key : string) (v : val) (es : list (string * val))
    : list (string * val) :=
  match es with
  | [] => [(key, v)]
  | (k, x) :: rest =>
      match array_index k with
      | Some m => if (n <? m)%N then (key, v) :: es else (k, x) :: insert_index n key v rest
      | None => (key, v) :: es
      end
  end.

(** Creating the own property [key] of an ordinary object with the own
    properties [es] (which do not include [key]): an array-index key goes
    to its place among the array-index keys, any other key goes last. *)
Definition add_property (es : list (string * val)) (key : string) (v : val)
    : list (string * val) :=
  match array_index key with
  | Some n => insert_index n key v es
  | None => es ++ [(key, v)]
  end.

End JS.

(* ------------------------------------------------------------------ *)
(** ** The guards of utils.ts *)
(* ------------------------------------------------------------------ *)

Module Utils.
Import JS.

(** [Object.prototype.toString.call(value)]: the tag of each kind of value
    (no value here carries a [Symbol.toStringTag] of its own). *)
Definition toString_tag (v : val) : string :=
  match v with
  | VUndef => "[object Undefined]"
  | VNull => "[object Null]"
  | VBool _ => "[object Boolean]"
  | VNum _ => "[object Number]"
  | VStr _ => "[object String]"
  | VArr _ => "[object Array]"
  | VObj _ => "[object Object]"
  | VDate _ => "[object Date]"
  | VFun _ => "[object Function]"
  | VProm _ _ _ => "[object Promise]"
  end.

(** [Array.isArray.bind(Array)] *)
Definition isArray (value : val) : bool := is_array value.

Definition isObject (obj : val) : bool :=
  String.eqb (toString_tag obj) "[object Object]".

Definition isPromise (obj : val) : bool :=
  String.eqb (toString_tag obj) "[object Promise]".

Definition isFunction (value : val) : bool :=
  String.eqb (typeof value) "function" ||
  String.eqb (toString_tag value) "[object Function]" ||
  String.eqb (toString_tag value) "[object AsyncFunction]" ||
  String.eqb (toString_tag value) "[object GeneratorFunction]".

Definition isUndefined (value : val) : bool :=
  String.eqb (typeof value) "undefined".

Definition isNotUndefined (value : val) : bool := negb (isUndefined value).

End Utils.

(* ------------------------------------------------------------------ *)
(** ** The matcher engine (match.ts) *)
(* ------------------------------------------------------------------ *)

Module Match.
Import JS.

Section Engine.

(** The function table: [fenv f args] is the result of calling the
    function value [VFun f] with the arguments [args]. *)
Variable fenv : nat -> list val -> val.

(** [JSON.stringify(values, null, 2)], the host's renderer. *)
Variable json_stringify : val -> string.

Definition isObject (v : val) : bool :=
  String.eqb (typeof v) "object" && negb (match v with VNull => true | _ => false end).

Definition isTuple (v : val) : bool :=
  match v with VArr xs => Nat.eqb (length xs) 2 | _ => false end.

Definition isFunction (v : val) : bool := String.eqb (typeof v) "function".

Definition isPrimitive (v : val) : bool :=
  negb (existsb (String.eqb (typeof v)) ["object"; "function"]).

(** [matchValue(value, matcher)].  Its result only ever feeds [&&] and
    [every], so it is kept as the truthiness of what the code returns. *)
Fixpoint matchValue (value matcher : val) {struct matcher} : bool :=
  match matcher with
  | VFun f => truthy (fenv f [value])
  | _ =>
    if isPrimitive matcher then strict_eq value matcher
    else if isTuple matcher && isTuple value then
      match matcher, value with
      | VArr [m0; m1], VArr [v0; v1] => matchValue v0 m0 && matchValue v1 m1
      | _, _ => false
      end
    else if isObject matcher && isObject value then
      (* Object.entries(matcher).every(([key, val]) => matchValue(value[key], val)) *)
      match matcher with
      | VObj es =>
          (fix every (es : list (string * val)) : bool :=
             match es with
             | [] => true
             | (k, m) :: rest => matchValue (get_prop value k) m && every rest
             end) es
      | VArr ms =>
          (fix every_idx (i : nat) (ms : list val) : bool :=
             match ms with
             | [] => true
             | m :: rest => matchValue (get_prop value (index_key i)) m && every_idx (S i) rest
             end) 0%nat ms
      | _ => true
      end
    else false
  end.

(** A case: its predicates and its handler. *)
Definition case : Type := (list val * val)%type.

Definition caseOf (predicates : list val) (handler : val) : case := (predicates, handler).

(** [predicates.every((pred, index) => matchValue(values[index], pred))] *)
Fixpoint all_match (predicates : list val) (values : list val) (index : nat) : bool :=
  match predicates with
  | [] => true
  | pred :: rest =>
      matchValue (nth index values VUndef) pred && all_match rest values (S index)
  end.

Inductive error : Type :=
  | Error (message : string).

Inductive outcome : Type :=
  | Returned (v : val)
  | Thrown (e : error).

Definition run_handler (handler : val) (values : list val) : val :=
  if isFunction handler then
    match handler with VFun f => fenv f values | _ => handler end
  else handler.

Fixpoint dispatch (cases : list case) (values : list val) : outcome :=
  match cases with
  | [] => Thrown (Error ("No match found for " +:+ json_stringify (VArr values)))
  | (predicates, handler) :: rest =>
      if all_match predicates values 0 then Returned (run_handler handler values)
      else dispatch rest values
  end.

(** [match(...cases)]: the dispatcher. *)
Definition match_ (cases : list case) : list val -> outcome :=
  fun values => dispatch cases values.

End Engine.
End Match.

(* ------------------------------------------------------------------ *)
(** ** Object evolution (evolve.ts) *)
(* ------------------------------------------------------------------ *)

Module Evolve.
Import JS Utils.

(** The own enumerable properties of [{...acc}]. *)
Definition spread (acc : val) : list (string * val) := own_entries acc.

(** [{ ...acc, [key]: res }], with [es] the own properties of [{...acc}]:
    an existing key keeps its position and takes the new value; a new key
    is added in the order of own keys. *)
Definition set_key (es : list (string * val)) (key : string) (res : val) : list (string * val) :=
  if existsb (fun '(k, _) => String.eqb k key) es then
    map (fun '(k, v) => if String.eqb k key then (k, res) else (k, v)) es
  else add_property es key res.

Section Evolve.

(** The function table of the spec's transform functions. *)
Variable fenv : nat -> list val -> val.

(** The closure [(obj) => evolve(spec, obj)] returned by the curried
    call [evolve(spec)]. *)
Variable evolver : val -> val.

Definition call (fn : val) (args : list val) : val :=
  match fn with VFun f => fenv f args | _ => VUndef end.

(** [fork(prop, spec)]: the first of the five cases of the dispatcher
    built in [evolve] whose guards hold; each matcher there is a guard
    function, so a case is selected exactly when both guards hold.
    [rec] is [evolve(spec, ·)] and [source] the source being evolved. *)
Definition fork (source prop spec : val) (rec : val -> val) : val :=
  if isArray prop && isObject spec then
    match prop with VArr xs => VArr (map rec xs) | _ => VUndef end
  else if isObject prop && isObject spec then rec prop
  else if isNotUndefined prop && isFunction spec then call spec [prop]
  else if isUndefined prop && isFunction spec then call spec [source]
  else prop.

(** [evolve(specs, source)]: the reduce over [Object.entries(specs)],
    starting from [source ?? {}]. *)
Fixpoint evolve (specs source : val) {struct specs} : val :=
  match source with
  | VUndef => evolver specs
  | _ =>
    let acc0 := match source with VNull => VObj [] | _ => source end in
    let step (acc : val) (key : string) (res : val) := VObj (set_key (spread acc) key res) in
    match specs with
    | VObj ses =>
        fold_left
          (fun acc '(key, spec) => step acc key (fork source (get_prop acc key) spec (evolve spec)))
          ses acc0
    | VArr ss =>
        (fix go_idx (i : nat) (acc : val) (ss : list val) : val :=
           match ss with
           | [] => acc
           | spec :: rest =>
               go_idx (S i)
                 (step acc (index_key i) (fork source (get_prop acc (index_key i)) spec (evolve spec)))
                 rest
           end) 0%nat acc0 ss
    | _ => acc0
    end
  end.

End Evolve.
End Evolve.

(* ------------------------------------------------------------------ *)
(** ** Tree building (list-to-tree.ts, the map-based variant) *)
(* ------------------------------------------------------------------ *)

Module ListToTree.

(** A record of the flat list: its id, its parent reference ([None] for
    [null] or [undefined]) and the rest of its fields. *)
Record item : Type := Item {
  id : Z;
  parent : option Z;
  fields : list (string * JS.val)
}.

(** [{ ...node, [childProp]: children }] *)
Inductive tree : Type :=
  | Node (node : item) (children : list tree).

Inductive tree_error : Type :=
  | NoRoot                     (* 'listToTree: no root node found' *)
  | MissingNode (i : Z)        (* `listToTree: missing node for id ${id}` *)
  | StackOverflow.             (* the recursion of [build] never ends *)

Inductive result (A : Type) : Type :=
  | Ok (a : A)
  | Err (e : tree_error).
Arguments Ok {A} a.
Arguments Err {A} e.

(** [byId]: [acc.set(item[idProp], item)] for every item. *)
Definition byId (items : list item) : gmap Z item :=
  fold_left (fun acc it => <[id it := it]> acc) items ∅.

(** [rootId]: the id of the first item whose parent is [null]/[undefined]. *)
Definition rootId (items : list item) : option Z :=
  match find (fun it => match parent it with None => true | Some _ => false end) items with
  | Some it => Some (id it)
  | None => None
  end.

(** [childIdsByParentId] *)
Definition childIdsByParentId (items : list item) : gmap Z (list Z) :=
  fold_left
    (fun acc it =>
       match parent it with
       | None => acc
       | Some parentId =>
           match acc !! parentId with
           | Some children => <[parentId := children ++ [id it]]> acc
           | None => <[parentId := [id it]]> acc
           end
       end)
    items ∅.

(** [childIds.map(build)]: the calls are made in order and the first
    throw propagates. *)
Fixpoint map_build (build : Z -> result tree) (ids : list Z) : result (list tree) :=
  match ids with
  | [] => Ok []
  | c :: rest =>
      match build c with
      | Err e => Err e
      | Ok t =>
          match map_build build rest with
          | Err e => Err e
          | Ok ts => Ok (t :: ts)
          end
      end
  end.

Section Build.
Variable nodes : gmap Z item.
Variable childIds : gmap Z (list Z).

(** [build(id)], given a bound on the depth of its recursion. *)
Fixpoint build (fuel : nat) (i : Z) : result tree :=
  match fuel with
  | O => Err StackOverflow
  | S fuel' =>
      match nodes !! i with
      | None => Err (MissingNode i)
      | Some node =>
          match map_build (build fuel') (default [] (childIds !! i)) with
          | Err e => Err e
          | Ok children => Ok (Node node children)
          end
      end
  end.
End Build.

(** [listToTree(idProp, parentProp, childProp)(list)], with [items] the
    [list] argument.  A path of [build]
    calls longer than the list repeats an id, and then the recursion of
    the code never returns: the bound [S (length list)] is reached only
    there. *)
Definition listToTree (items : list item) : result tree :=
  match rootId items with
  | None => Err NoRoot
  | Some r => build (byId items) (childIdsByParentId items) (S (length items)) r
  end.

(** The test of [rootId]: [item[parentProp] == null]. *)
Definition is_rootless (it : item) : bool :=
  match parent it with None => true | Some _ => false end.

(** The record at the root of a built tree. *)
Definition root_of (t : tree) : item :=
  match t with Node n _ => n end.

(** The shape of a tree built from [items]: each node is a record of the
    list, and the roots of its children are the records whose parent is
    that node's id, in the order of the list. *)
Inductive parent_linked (items : list item) : tree -> Prop :=
  | linked_node (n : item) (cs : list tree) :
      In n items ->
      map root_of cs = filter (fun it => parent it = Some (id n)) items ->
      Forall (parent_linked items) cs ->
      parent_linked items (Node n cs).

(** [ancestry nodes i path]: following the parent references of the
    records of [nodes] from [i] visits the ids [path] and ends at a record
    with no parent. *)
Inductive ancestry (nodes : gmap Z item) : Z -> list Z -> Prop :=
  | ancestry_root (i : Z) (n : item) :
      nodes !! i = Some n -> parent n = None -> ancestry nodes i []
  | ancestry_step (i : Z) (n : item) (p : Z) (path : list Z) :
      nodes !! i = Some n -> parent n = Some p -> ancestry nodes p path ->
      ancestry nodes i (p :: path).

End ListToTree.

(* ------------------------------------------------------------------ *)
(** ** Promise-object resolution (await-obj.ts) *)
(* ------------------------------------------------------------------ *)

Module AwaitObj.
Import JS Utils.

(** How the promise returned by an async function settles. *)
Inductive settled : Type :=
  | Fulfilled (v : val)
  | Rejected (reason : val).

(** [isPromise(value) ? await value : value], for a value that does not
    reject. *)
Definition resolve_value (value : val) : val :=
  if isPromise value then match value with VProm _ _ r => r | _ => value end
  else value.

(** The rejection of the async callback for one key, with the time at
    which it happens: only an awaited promise that rejects throws. *)
Definition rejection (value : val) : option (nat * val) :=
  if isPromise value then
    match value with
    | VProm t false e => Some (t, e)
    | _ => None
    end
  else None.

(** [Promise.all] rejects with the rejection that happens first; of two
    at the same time, the one registered first (the earlier key) runs
    first. *)
Fixpoint first_rejection (values : list val) : option (nat * val) :=
  match values with
  | [] => None
  | v :: rest =>
      match rejection v, first_rejection rest with
      | None, r => r
      | Some te, None => Some te
      | Some (t, e), Some (t', e') => if Nat.leb t t' then Some (t, e) else Some (t', e')
      end
  end.

(** [awaitObj(obj)]: [Object.keys], [Promise.all] over the keys, then
    [Object.fromEntries] of the resolved entries. *)
Definition awaitObj (obj : val) : settled :=
  let keys := map fst (own_entries obj) in
  let values := map (get_prop obj) keys in
  match first_rejection values with
  | Some (_, e) => Rejected e
  | None => Fulfilled (VObj (map (fun key => (key, resolve_value (get_prop obj key))) keys))
  end.

End AwaitObj.

(* ------------------------------------------------------------------ *)
(** ** Tap-style pipeline (pipe-tap.ts) *)
(* ------------------------------------------------------------------ *)

Module PipeTap.
Import JS.

(** A step [(arg, prev) => ...]. *)
Definition step : Type := val -> val -> val.

(** The calls made so far, each as the pair of arguments a step received. *)
Definition trace : Type := list (val * val).

(** [p.then(k)] for a promise [p]: [k] runs on the fulfilment value and
    the result settles once both have; a rejection passes through. *)
Definition then_ (p : val) (k : val -> val * trace) : val * trace :=
  match p with
  | VProm t true r =>
      let (v, tr) := k r in
      match v with
      | VProm t' ok w => (VProm (Nat.max t t') ok w, tr)
      | _ => (VProm t true v, tr)
      end
  | VProm t false e => (VProm t false e, [])
  | _ => k p
  end.

(** [[fn2, ..., fn7].filter(Boolean)]: the steps that are given. *)
Definition given (fns : list (option step)) : list step :=
  omap (fun o => o) fns.

(** [pipeTap(fn1, fn2, ..., fn7)(arg)], with the calls the steps receive. *)
Definition pipeTap (fn1 : step) (rest : list (option step)) (arg : val) : val * trace :=
  fold_left
    (fun (acc : val * trace) (currentFn : step) =>
       let (result, tr) := acc in
       match result with
       | VProm _ _ _ =>
           let (r, tr') := then_ result (fun resolvedResult =>
                             (currentFn arg resolvedResult, [(arg, resolvedResult)])) in
           (r, tr ++ tr')
       | _ => (currentFn arg result, tr ++ [(arg, result)])
       end)
    (given rest)
    (fn1 arg VUndef, [(arg, VUndef)]).

(** [value instanceof Promise] *)
Definition is_promise (v : val) : bool :=
  match v with VProm _ _ _ => true | _ => false end.

(** The values of a run of the steps [fns] on the input [arg] from the
    value [v], as long as none of them is a promise: [v], then what each
    step returns given [arg] and the value before it. *)
Fixpoint run (arg : val) (fns : list step) (v : val) : list val :=
  v :: match fns with
       | [] => []
       | f :: rest => run arg rest (f arg v)
       end.

End PipeTap.

(* ------------------------------------------------------------------ *)
(** ** Deep traversal (traverse.ts) *)
(* ------------------------------------------------------------------ *)

Module Traverse.
Import JS.

Section Traverse.

(** The leaf function [fn(value, key)]; [key] is [undefined] or a string. *)
Variable fn : val -> val -> val.

(** The closure [(obj, key) => traverse(fn, obj, key)] returned by
    [traverse(fn)], and by [traverse(fn, undefined, key)]. *)
Variable closure : val.

(** [traverse(fn, obj, key)]: the dispatcher
    [match(caseOf([isArray, _], ...), caseOf([isObject, _], ...), caseOf([_, _], fn))]
    applied to [(obj, key)], with the guards [isArray] and [isObject] of
    utils.ts as in evolve.ts; the handler [fn] of the last case is a
    function, so it is called with [(obj, key)]. *)
Fixpoint traverse (obj key : val) {struct obj} : val :=
  match obj with
  | VUndef => closure
  | _ =>
    if Utils.isArray obj then
      match obj with
      | VArr xs => VArr (map (fun el => traverse el VUndef) xs)
      | _ => VUndef
      end
    else if Utils.isObject obj then
      match obj with
      | VObj es => VObj (map (fun '(k, v) => (k, traverse v (VStr k))) es)
      | _ => VUndef
      end
    else fn obj key
  end.

End Traverse.

(** A value with no [undefined] anywhere inside its arrays and plain
    objects. *)
Fixpoint no_undefined (v : val) : bool :=
  match v with
  | VUndef => false
  | VArr xs => forallb no_undefined xs
  | VObj es => forallb (fun '(_, x) => no_undefined x) es
  | _ => true
  end.

(** A value that [traverse] hands to [fn]: neither [undefined], nor an
    array, nor a plain object. *)
Definition is_leaf (v : val) : bool :=
  match v with VUndef | VArr _ | VObj _ => false | _ => true end.

End Traverse.

(* ------------------------------------------------------------------ *)
(** ** Fixtures: the functions of the repository's tests and examples *)
(* ------------------------------------------------------------------ *)

Module Fixtures.
Import JS.

(** The helpers of match.test.ts, as a function table: [isOdd] (0),
    [isString] (1), the wildcard [_] (2), and the handlers
    [() => 'match'] (3) and [() => 'no match'] (4). *)
Definition match_test_fns (f : nat) (args : list val) : val :=
  match f with
  | 0%nat => match args with VNum n :: _ => VBool (Z.rem n 2 =? 1) | _ => VBool false end
  | 1%nat => match args with VStr _ :: _ => VBool true | _ => VBool false end
  | 2%nat => VBool true
  | 3%nat => VStr "match"
  | 4%nat => VStr "no match"
  | _ => VUndef
  end.

(** The dispatcher of the test 'does not treat tuple patterns as prefix
    matches':
    [match(caseOf([[isOdd, isString]], () => 'match'), caseOf([_], () => 'no match'))]. *)
Definition prefix_test_cases : list Match.case :=
  [Match.caseOf [VArr [VFun 0; VFun 1]] (VFun 3); Match.caseOf [VFun 2] (VFun 4)].

(** The transform [(o) => o.x + o.y] (0) of the evolve test 'should add
    new properties using the entire object'. *)
Definition evolve_test_fns (f : nat) (args : list val) : val :=
  match f, args with
  | 0%nat, [o] =>
      match get_prop o "x", get_prop o "y" with
      | VNum a, VNum b => VNum (a + b)
      | _, _ => VUndef
      end
  | _, _ => VUndef
  end.

(** The steps of the tap-pipe example: [(init) => init + 1],
    [(init, prev) => prev + 10] and [(init, prev) => prev * 2]. *)
Definition f1 : PipeTap.step := fun init _ =>
  match init with VNum n => VNum (n + 1) | _ => VUndef end.
Definition f2 : PipeTap.step := fun _ prev =>
  match prev with VNum n => VNum (n + 10) | _ => VUndef end.
Definition f3 : PipeTap.step := fun _ prev =>
  match prev with VNum n => VNum (n * 2) | _ => VUndef end.

End Fixtures.

(* ================================================================== *)
(** * Properties of the matcher engine *)
(* ================================================================== *)

Module MatchFacts.
Import JS Match Fixtures.

Section Facts.
Variable fenv : nat -> list val -> val.
Variable json_stringify : val -> string.

(** The key-wise check of an object matcher [es] against [value]. *)
Lemma matchValue_VObj (value : val) (es : list (string * val)) :
  matchValue fenv value (VObj es) =
  isObject value && forallb (fun '(k, m) => matchValue fenv (get_prop value k) m) es.
Proof.
  cbn [matchValue]. unfold isPrimitive, isTuple. cbn -[isObject].
  destruct (isObject value); [|reflexivity]. cbn.
  induction es as [|[k m] es IH]; [reflexivity|]. cbn. now rewrite IH.
Qed.

Lemma dispatch_skip (c : case) (cases : list case) (values : list val) :
  all_match fenv (fst c) values 0 = false ->
  dispatch fenv json_stringify (c :: cases) values = dispatch fenv json_stringify cases values.
Proof. destruct c as [p h]. cbn. intros ->. reflexivity. Qed.

(** C2: the dispatcher returns the handler's result (applied to the
    arguments when it is a function, returned as is otherwise) of the
    earliest case whose positional matchers all match; later cases are
    never consulted. *)
Theorem first_matching_case_wins (cases : list case) (values : list val)
    (i : nat) (predicates : list val) (handler : val) :
  nth_error cases i = Some (predicates, handler) ->
  all_match fenv predicates values 0 = true ->
  (forall j p h, (j < i)%nat -> nth_error cases j = Some (p, h) ->
                 all_match fenv p values 0 = false) ->
  match_ fenv json_stringify cases values = Returned (run_handler fenv handler values).
Proof.
  unfold match_. revert i.
  induction cases as [|[p h] cases IH]; intros i Hi Hm Hbefore.
  - destruct i; discriminate.
  - destruct i as [|i].
    + cbn in Hi. injection Hi as -> ->. cbn. now rewrite Hm.
    + rewrite dispatch_skip by (apply (Hbefore 0%nat p h); [lia | reflexivity]).
      apply (IH i Hi Hm).
      intros j p' h' Hj Hnth. apply (Hbefore (S j) p' h'); [lia | exact Hnth].
Qed.

(** C5: a dispatcher built from no case throws, for every argument
    tuple, the error 'No match found for ' followed by the rendering
    [JSON.stringify(values, null, 2)] of the arguments. *)
Theorem empty_dispatcher_throws (values : list val) :
  match_ fenv json_stringify [] values =
  Thrown (Error ("No match found for " +:+ json_stringify (VArr values))).
Proof. reflexivity. Qed.


(** C10: the empty object matcher [{}] matches every non-null object
    (plain objects, arrays, dates, ...) and no primitive value. *)
Theorem empty_object_matcher (value : val) :
  (isObject value = true -> matchValue fenv value (VObj []) = true) /\
  (is_js_primitive value = true -> matchValue fenv value (VObj []) = false).
Proof.
  rewrite matchValue_VObj. cbn [forallb]. rewrite andb_true_r.
  split; [now intros ->|].
  destruct value; cbn; try discriminate; reflexivity.
Qed.

End Facts.

(** C1: the tuple matcher [[1, 2]] matches the array [[1, 2, 3]], and
    [[1, undefined]] matches [[1]]: an array whose length is not 2 falls
    through to the object case, which compares [value["0"]] and
    [value["1"]].  The repository's test 'does not treat tuple patterns
    as prefix matches' expects ['no match'] for [[1, '2', 3]]; the
    dispatcher answers ['match']. *)
Theorem tuple_matcher_prefix_match :
  matchValue match_test_fns (VArr [VNum 1; VNum 2; VNum 3]) (VArr [VNum 1; VNum 2]) = true /\
  matchValue match_test_fns (VArr [VNum 1]) (VArr [VNum 1; VUndef]) = true /\
  (forall json_stringify : val -> string,
     match_ match_test_fns json_stringify prefix_test_cases [VArr [VNum 1; VStr "2"; VNum 3]]
     = Returned (VStr "match")).
Proof. split; [reflexivity | split; [reflexivity | intros; reflexivity]]. Qed.

(** C3, refuted: the plain object matcher [{}] matches the array [[]] and
    a Date. *)
Lemma object_matcher_array_date_counterexample :
  matchValue match_test_fns (VArr []) (VObj []) = true /\
  matchValue match_test_fns (VDate 0) (VObj []) = true /\
  matchValue match_test_fns (VArr [VNum 7; VNum 8]) (VObj [("length", VNum 2)]) = true.
Proof. repeat split. Qed.

(** C3, as the code does it: an object matcher treats an array or a Date
    like any other object, checking each of its keys [K] against
    [value[K]].  For keys that are array indices or [length], which no
    prototype of an array or a Date defines, [value[K]] is an element or
    the length of an array ([undefined] past its end) and [undefined] for
    a Date. *)
Theorem object_matcher_on_arrays_and_dates (fenv : nat -> list val -> val)
    (es : list (string * val)) (xs : list val) (t : Z) :
  Forall (fun e => fst e = "length" \/ is_Some (array_index (fst e))) es ->
  (matchValue fenv (VArr xs) (VObj es) =
     forallb (fun '(k, m) => matchValue fenv (get_prop (VArr xs) k) m) es) /\
  (matchValue fenv (VDate t) (VObj es) =
     forallb (fun '(k, m) => matchValue fenv VUndef m) es).
Proof.
  intros _. split; rewrite matchValue_VObj; reflexivity.
Qed.

(** The dispatcher of the prefix test on [[1, '2']]: both cases match,
    and the first one answers. *)
Lemma first_matching_case_wins_witness :
  all_match match_test_fns [VArr [VFun 0; VFun 1]] [VArr [VNum 1; VStr "2"]] 0 = true /\
  match_ match_test_fns (fun _ => "") prefix_test_cases [VArr [VNum 1; VStr "2"]] =
  Returned (run_handler match_test_fns (VFun 3) [VArr [VNum 1; VStr "2"]]).
Proof.
  split; [reflexivity|].
  apply (first_matching_case_wins match_test_fns (fun _ => "") prefix_test_cases
           [VArr [VNum 1; VStr "2"]] 0 [VArr [VFun 0; VFun 1]] (VFun 3)).
  - reflexivity.
  - reflexivity.
  - intros j p h Hj. lia.
Defined.


Lemma object_matcher_on_arrays_and_dates_witness :
  Forall (fun e => fst e = "length" \/ is_Some (array_index (fst e)))
    [("length", VNum 2); ("0", VNum 7)] /\
  matchValue match_test_fns (VArr [VNum 7; VNum 8]) (VObj [("length", VNum 2); ("0", VNum 7)]) =
    forallb (fun '(k, m) => matchValue match_test_fns (get_prop (VArr [VNum 7; VNum 8]) k) m)
            [("length", VNum 2); ("0", VNum 7)].
Proof.
  assert (Hk : Forall (fun e => fst e = "length" \/ is_Some (array_index (fst e)))
                 [("length", VNum 2); ("0", VNum 7)]).
  { constructor; [left; reflexivity|]. constructor; [right; eexists; reflexivity|]. constructor. }
  split; [exact Hk|].
  exact (proj1 (object_matcher_on_arrays_and_dates match_test_fns
                  [("length", VNum 2); ("0", VNum 7)] [VNum 7; VNum 8] 0 Hk)).
Defined.

Lemma empty_object_matcher_witness :
  matchValue match_test_fns (VArr []) (VObj []) = true /\
  matchValue match_test_fns (VNum 0) (VObj []) = false.
Proof.
  split.
  - apply (empty_object_matcher match_test_fns (VArr [])). reflexivity.
  - apply (empty_object_matcher match_test_fns (VNum 0)). reflexivity.
Defined.

End MatchFacts.

(* ================================================================== *)
(** * Properties of evolve *)
(* ================================================================== *)

Module EvolveFacts.
Import JS Utils Evolve Fixtures.

Lemma existsb_key (es : list (string * val)) (key : string) :
  existsb (fun '(k, _) => String.eqb k key) es = bool_decide (key ∈ map fst es).
Proof.
  induction es as [|[k v] es IH]; [reflexivity|]. cbn.
  destruct (String.eqb_spec k key) as [->|Hne]; cbn.
  - symmetry. apply bool_decide_eq_true. apply list_elem_of_here.
  - rewrite IH. apply bool_decide_ext. rewrite elem_of_cons. split; [tauto|]. intros [->|H]; tauto.
Qed.

Lemma insert_index_split (n : N) (key : string) (v : val) (es : list (string * val)) :
  exists l1 l2, es = l1 ++ l2 /\ insert_index n key v es = l1 ++ (key, v) :: l2.
Proof.
  induction es as [|[k x] es IH]; cbn.
  - exists [], []. split; reflexivity.
  - destruct (array_index k) as [m|].
    + destruct (n <? m)%N.
      * exists [], ((k, x) :: es). split; reflexivity.
      * destruct IH as (l1 & l2 & -> & ->). exists ((k, x) :: l1), l2. split; reflexivity.
    + exists [], ((k, x) :: es). split; reflexivity.
Qed.

(** A new property is inserted somewhere in the list, at its end when
    its key is not an array index. *)
Lemma add_property_split (es : list (string * val)) (key : string) (v : val) :
  exists l1 l2, es = l1 ++ l2 /\ add_property es key v = l1 ++ (key, v) :: l2 /\
                (array_index key = None -> l2 = []).
Proof.
  unfold add_property. destruct (array_index key) as [n|].
  - destruct (insert_index_split n key v es) as (l1 & l2 & H1 & H2).
    exists l1, l2. split; [exact H1|]. split; [exact H2|discriminate].
  - exists es, []. split; [symmetry; apply app_nil_r|]. split; reflexivity.
Qed.

Lemma assoc_lookup_insert (l1 l2 : list (string * val)) (key k : string) (v : val) :
  key ∉ map fst (l1 ++ l2) ->
  assoc_lookup (l1 ++ (key, v) :: l2) k =
  if String.eqb key k then v else assoc_lookup (l1 ++ l2) k.
Proof.
  induction l1 as [|[k1 x1] l1 IH]; intros Hn; [reflexivity|].
  cbn [app assoc_lookup]. cbn [map app] in Hn.
  destruct (String.eqb_spec k1 k) as [->|Hne].
  - destruct (String.eqb_spec key k) as [->|]; [|reflexivity].
    exfalso. apply Hn. apply list_elem_of_here.
  - apply IH. intros H. apply Hn. now apply list_elem_of_further.
Qed.

Lemma get_prop_set_key (es : list (string * val)) (key k : string) (res : val) :
  get_prop (VObj (set_key es key res)) k =
  if String.eqb key k then res else get_prop (VObj es) k.
Proof.
  cbn [get_prop]. unfold set_key. rewrite existsb_key.
  case_bool_decide as Hin.
  - destruct (String.eqb_spec key k) as [<-|Hne].
    + induction es as [|[k1 x1] es IH]; [apply not_elem_of_nil in Hin; contradiction|].
      cbn [map assoc_lookup].
      destruct (String.eqb_spec k1 key) as [->|Hne1]; cbn [assoc_lookup].
      * now rewrite String.eqb_refl.
      * apply String.eqb_neq in Hne1 as Hne1'. rewrite Hne1'.
        apply IH. cbn in Hin. apply elem_of_cons in Hin as [->|Hin]; [congruence|exact Hin].
    + clear Hin. induction es as [|[k1 x1] es IH]; [reflexivity|].
      cbn [map assoc_lookup].
      destruct (String.eqb_spec k1 key) as [->|Hne1]; cbn [assoc_lookup].
      * apply String.eqb_neq in Hne as Hne'. rewrite Hne'. exact IH.
      * destruct (String.eqb k1 k); [reflexivity|exact IH].
  - destruct (add_property_split es key res) as (l1 & l2 & -> & -> & _).
    apply assoc_lookup_insert. exact Hin.
Qed.

Lemma map_fst_replace (es : list (string * val)) (key : string) (res : val) :
  map fst (map (fun '(k, v) => if String.eqb k key then (k, res) else (k, v)) es) = map fst es.
Proof.
  induction es as [|[k v] es IH]; [reflexivity|]. cbn. rewrite <- IH.
  destruct (String.eqb k key); reflexivity.
Qed.

(** The keys of [{ ...acc, [key]: res }]: those of [acc], with [key]
    added when it is new. *)
Lemma set_key_keys (es : list (string * val)) (key : string) (res : val) :
  map fst (set_key es key res) ≡ₚ
  (if bool_decide (key ∈ map fst es) then map fst es else map fst es ++ [key]).
Proof.
  unfold set_key. rewrite existsb_key. case_bool_decide as Hin.
  - now rewrite map_fst_replace.
  - destruct (add_property_split es key res) as (l1 & l2 & -> & -> & _).
    rewrite !map_app. cbn [map fst]. rewrite <- app_assoc. cbn.
    apply Permutation_app_head. apply Permutation_cons_append.
Qed.

(** The keys of [{ ...acc, [key]: res }] that are not array indices keep
    their order, a new one coming last. *)
Lemma set_key_named_keys (es : list (string * val)) (key : string) (res : val) :
  filter (fun k => array_index k = None) (map fst (set_key es key res)) =
  filter (fun k => array_index k = None) (map fst es) ++
  (if bool_decide (key ∈ map fst es) then [] else filter (fun k => array_index k = None) [key]).
Proof.
  unfold set_key. rewrite existsb_key. case_bool_decide as Hin.
  - now rewrite map_fst_replace, app_nil_r.
  - destruct (add_property_split es key res) as (l1 & l2 & -> & -> & Hl2).
    rewrite !map_app, !filter_app. cbn [map fst].
    destruct (array_index key) as [n|] eqn:Hk.
    + rewrite filter_cons_False by (rewrite Hk; discriminate).
      rewrite (filter_cons_False _ key) by (rewrite Hk; discriminate).
      cbn. now rewrite app_nil_r.
    + rewrite (Hl2 eq_refl). cbn [map]. rewrite app_nil_r. reflexivity.
Qed.

Section Facts.
Variable fenv : nat -> list val -> val.
Variable evolver : val -> val.


Lemma evolve_VObj (ses src : list (string * val)) :
  evolve fenv evolver (VObj ses) (VObj src) =
  fold_left
    (fun acc '(key, spec) =>
       VObj (set_key (spread acc) key
               (fork fenv (VObj src) (get_prop acc key) spec (evolve fenv evolver spec))))
    ses (VObj src).
Proof. reflexivity. Qed.



End Facts.



End EvolveFacts.

(* ================================================================== *)
(** * Properties of listToTree *)
(* ================================================================== *)

Module ListToTreeFacts.
Import ListToTree.

(** Every item's id is a key of [byId]. *)
Lemma byId_has_items (items : list item) (i : Z) :
  (exists it, In it items /\ id it = i) -> is_Some (byId items !! i).
Proof.
  unfold byId.
  assert (forall (acc : gmap Z item),
            is_Some (acc !! i) \/ (exists it, In it items /\ id it = i) ->
            is_Some (fold_left (fun acc it => <[id it := it]> acc) items acc !! i)) as Hgen.
  { induction items as [|it0 items IH]; intros acc [Hacc|[it [Hin Hid]]]; cbn.
    - exact Hacc.
    - destruct Hin.
    - apply IH. left. destruct (decide (id it0 = i)) as [<-|Hne].
      + rewrite lookup_insert_eq. eauto.
      + rewrite lookup_insert_ne by done. exact Hacc.
    - apply IH. destruct Hin as [<-|Hin].
      + left. rewrite Hid, lookup_insert_eq. eauto.
      + right. eauto. }
  intros H. apply Hgen. now right.
Qed.

(** Every id listed as a child is the id of an item. *)
Lemma childIds_are_items (items : list item) (p : Z) (cs : list Z) (c : Z) :
  childIdsByParentId items !! p = Some cs -> In c cs ->
  exists it, In it items /\ id it = c.
Proof.
  unfold childIdsByParentId.
  assert (forall (acc : gmap Z (list Z)) (pre : list item),
            (forall p cs c, acc !! p = Some cs -> In c cs -> exists it, In it (pre ++ items) /\ id it = c) ->
            forall p cs c,
            fold_left
              (fun acc it =>
                 match parent it with
                 | None => acc
                 | Some parentId =>
                     match acc !! parentId with
                     | Some children => <[parentId := children ++ [id it]]> acc
                     | None => <[parentId := [id it]]> acc
                     end
                 end) items acc !! p = Some cs ->
            In c cs -> exists it, In it (pre ++ items) /\ id it = c) as Hgen.
  { induction items as [|it0 items IH]; intros acc pre Hacc; cbn.
    - exact Hacc.
    - replace (pre ++ it0 :: items) with ((pre ++ [it0]) ++ items)
        by (rewrite <- app_assoc; reflexivity).
      apply IH. intros p' cs' c' Hl Hc.
      assert (Hwiden : forall c'', (exists it, In it (pre ++ it0 :: items) /\ id it = c'') ->
                                   exists it, In it ((pre ++ [it0]) ++ items) /\ id it = c'')
        by (rewrite <- app_assoc; auto).
      apply Hwiden.
      assert (Hself : exists it, In it (pre ++ it0 :: items) /\ id it = id it0)
        by (exists it0; split; [apply in_or_app; right; now left | reflexivity]).
      destruct (parent it0) as [q|]; [|exact (Hacc p' cs' c' Hl Hc)].
      destruct (acc !! q) as [children|] eqn:Hq.
      + destruct (decide (q = p')) as [<-|Hne].
        * rewrite lookup_insert_eq in Hl. injection Hl as <-.
          apply in_app_or in Hc as [Hc|[<-|[]]]; [exact (Hacc q children c' Hq Hc)|exact Hself].
        * rewrite lookup_insert_ne in Hl by done. exact (Hacc p' cs' c' Hl Hc).
      + destruct (decide (q = p')) as [<-|Hne].
        * rewrite lookup_insert_eq in Hl. injection Hl as <-.
          destruct Hc as [<-|[]]. exact Hself.
        * rewrite lookup_insert_ne in Hl by done. exact (Hacc p' cs' c' Hl Hc). }
  intros Hl Hc.
  exact (Hgen ∅ [] (fun p cs c H => ltac:(rewrite lookup_empty in H; discriminate)) p cs c Hl Hc).
Qed.

Section Build.
Variable nodes : gmap Z item.
Variable childIds : gmap Z (list Z).
Hypothesis children_known :
  forall p cs c, childIds !! p = Some cs -> In c cs -> is_Some (nodes !! c).

(** [build] never reaches its [missing node] branch when it starts from
    a known id and every listed child is known. *)
Lemma build_no_missing_node (fuel : nat) :
  forall i j, is_Some (nodes !! i) -> build nodes childIds fuel i <> Err (MissingNode j).
Proof.
  induction fuel as [|fuel IH]; intros i j Hi; cbn; [discriminate|].
  destruct (nodes !! i) as [node|] eqn:Hn; [|destruct Hi as [? Hi]; discriminate].
  assert (Hids : forall c, In c (default [] (childIds !! i)) -> is_Some (nodes !! c)).
  { destruct (childIds !! i) eqn:Hc; cbn; [eauto | intros _ []]. }
  assert (Hmap : forall l, (forall c, In c l -> is_Some (nodes !! c)) ->
                 map_build (build nodes childIds fuel) l <> Err (MissingNode j)).
  { induction l as [|c rest IHl]; intros Hl; cbn; [discriminate|].
    destruct (build nodes childIds fuel c) as [t|e] eqn:Hb.
    - destruct (map_build (build nodes childIds fuel) rest) as [ts|e] eqn:Hr; [discriminate|].
      intros [= ->]. apply IHl; [intros c' Hc'; apply Hl; now right | reflexivity].
    - intros [= ->]. apply (IH c j); [apply Hl; now left | exact Hb]. }
  destruct (map_build (build nodes childIds fuel) (default [] (childIds !! i))) as [ch|e] eqn:Hm;
    [discriminate|].
  intros [= ->]. exact (Hmap _ Hids Hm).
Qed.
End Build.

Lemma rootId_is_item (items : list item) (r : Z) :
  rootId items = Some r -> exists it, In it items /\ id it = r.
Proof.
  unfold rootId.
  destruct (find _ items) as [it|] eqn:Hf; [|discriminate].
  intros [= <-]. exists it. split; [exact (proj1 (find_some _ _ Hf)) | reflexivity].
Qed.

(** C7: a record whose parent reference matches no id is dropped
    silently: [[{id: 1, parent: null}, {id: 2, parent: 99}]] yields the
    root alone, with no children, and no error.  More generally, the
    [missing node] error of [build] is never raised, whatever the list. *)
Theorem dangling_reference_dropped :
  listToTree [Item 1 None []; Item 2 (Some 99) []] = Ok (Node (Item 1 None []) []) /\
  (forall (items : list item) (j : Z), listToTree items <> Err (MissingNode j)).
Proof.
  split; [reflexivity|].
  intros items j. unfold listToTree.
  destruct (rootId items) as [r|] eqn:Hr; [|discriminate].
  apply build_no_missing_node.
  - intros p cs c Hp Hc. apply byId_has_items. exact (childIds_are_items items p cs c Hp Hc).
  - apply byId_has_items. exact (rootId_is_item items r Hr).
Qed.

End ListToTreeFacts.

(* ================================================================== *)
(** * Properties of awaitObj *)
(* ================================================================== *)

Module AwaitObjFacts.
Import JS Utils AwaitObj.

Lemma rejection_some (v : val) (t : nat) (e : val) :
  rejection v = Some (t, e) <-> v = VProm t false e.
Proof.
  split.
  - destruct v as [| | | | | | | | |t' [|] v']; cbn; try discriminate.
    now intros [= -> ->].
  - now intros ->.
Qed.

Lemma first_rejection_none (values : list val) :
  first_rejection values = None -> forall v, In v values -> rejection v = None.
Proof.
  induction values as [|v0 values IH]; cbn; [intros _ v []|].
  destruct (rejection v0) as [[t e]|] eqn:H0, (first_rejection values) as [[t' e']|];
    try (destruct (Nat.leb t t'); discriminate); try discriminate.
  intros _ v [<-|Hin]; [exact H0 | exact (IH eq_refl v Hin)].
Qed.

Lemma first_rejection_some (values : list val) (t : nat) (e : val) :
  first_rejection values = Some (t, e) ->
  In (VProm t false e) values /\
  (forall t' e', In (VProm t' false e') values -> (t <= t')%nat).
Proof.
  revert t e. induction values as [|v0 values IH]; intros t e; cbn; [discriminate|].
  destruct (rejection v0) as [[t0 e0]|] eqn:H0;
    destruct (first_rejection values) as [[t1 e1]|] eqn:H1.
  - apply rejection_some in H0 as ->.
    destruct (IH t1 e1 eq_refl) as [Hin1 Hmin1].
    destruct (Nat.leb_spec t0 t1); intros [= <- <-].
    + split; [now left|]. intros t' e' [Heq|Hin]; [injection Heq as <- <-; lia|].
      specialize (Hmin1 t' e' Hin). lia.
    + split; [now right|]. intros t' e' [Heq|Hin]; [injection Heq as <- <-; lia|].
      exact (Hmin1 t' e' Hin).
  - apply rejection_some in H0 as ->. intros [= <- <-].
    split; [now left|]. intros t' e' [Heq|Hin]; [injection Heq as <- <-; lia|].
    exfalso. pose proof (first_rejection_none values H1 _ Hin) as Hn. discriminate.
  - intros Heq. destruct (IH t e Heq) as [Hin Hmin]. split; [now right|].
    intros t' e' [Hv0|Hin']; [subst v0; cbn in H0; discriminate|exact (Hmin t' e' Hin')].
  - discriminate.
Qed.

(** C8: for an object [obj] (a non-null value whose typeof is
    'object'), [awaitObj(obj)] fulfils, when no awaited property rejects,
    with an object of the same keys in the same order, each promise
    replaced by its value and every other value passed through; when some
    property rejects, it rejects with the failure of a rejecting property,
    the one that fails first (no partial result), and so with exactly that
    failure when a single property rejects. *)
Theorem awaitObj_all_or_first_failure (obj : val) :
  is_object obj = true ->
  (forall v, isPromise v = false -> resolve_value v = v) /\
  (forall t v, resolve_value (VProm t true v) = v) /\
  ((forall k t e, In k (map fst (own_entries obj)) -> get_prop obj k <> VProm t false e) ->
   awaitObj obj =
     Fulfilled (VObj (map (fun k => (k, resolve_value (get_prop obj k))) (map fst (own_entries obj))))) /\
  (forall k t e, In k (map fst (own_entries obj)) -> get_prop obj k = VProm t false e ->
   exists k0 t0 e0,
     In k0 (map fst (own_entries obj)) /\ get_prop obj k0 = VProm t0 false e0 /\
     awaitObj obj = Rejected e0 /\ (t0 <= t)%nat /\
     ((forall k' t' e', In k' (map fst (own_entries obj)) -> get_prop obj k' = VProm t' false e' ->
                        k' = k) -> e0 = e)).
Proof.
  intros _.
  split; [intros v Hv; unfold resolve_value; now rewrite Hv|].
  split; [reflexivity|].
  split.
  - intros Hnone. unfold awaitObj.
    destruct (first_rejection (map (get_prop obj) (map fst (own_entries obj)))) as [[t e]|] eqn:Hf;
      [|reflexivity].
    destruct (first_rejection_some _ _ _ Hf) as [Hin _].
    apply in_map_iff in Hin as [k [Hk Hin]].
    exfalso. exact (Hnone k t e Hin Hk).
  - intros k t e Hin Hk. unfold awaitObj.
    destruct (first_rejection (map (get_prop obj) (map fst (own_entries obj)))) as [[t0 e0]|] eqn:Hf.
    + destruct (first_rejection_some _ _ _ Hf) as [Hin0 Hmin].
      apply in_map_iff in Hin0 as [k0 [Hk0 Hin0]].
      exists k0, t0, e0. split; [exact Hin0|]. split; [exact Hk0|]. split; [reflexivity|].
      split.
      * apply (Hmin t e). apply in_map_iff. exists k. now split.
      * intros Honly. specialize (Honly k0 t0 e0 Hin0 Hk0) as ->.
        rewrite Hk in Hk0. now injection Hk0.
    + exfalso.
      assert (Hr : rejection (get_prop obj k) = None).
      { apply (first_rejection_none _ Hf). apply in_map_iff. exists k. now split. }
      rewrite Hk in Hr. discriminate.
Qed.

(** The example of the spec: [{a: resolvedPromise(1), b: rejectedPromise(Error("X"))}]. *)
Lemma awaitObj_all_or_first_failure_witness :
  is_object (VObj [("a", VProm 0 true (VNum 1)); ("b", VProm 0 false (VStr "X"))]) = true /\
  get_prop (VObj [("a", VProm 0 true (VNum 1)); ("b", VProm 0 false (VStr "X"))]) "b"
    = VProm 0 false (VStr "X") /\
  awaitObj (VObj [("a", VProm 0 true (VNum 1)); ("b", VProm 0 false (VStr "X"))])
    = Rejected (VStr "X").
Proof.
  split; [reflexivity|]. split; [reflexivity|].
  destruct (proj2 (proj2 (proj2 (awaitObj_all_or_first_failure
              (VObj [("a", VProm 0 true (VNum 1)); ("b", VProm 0 false (VStr "X"))]) eq_refl)))
              "b" 0%nat (VStr "X") ltac:(cbn; tauto) eq_refl)
    as (k0 & t0 & e0 & Hin0 & Hk0 & Hres & _ & Honly).
  rewrite Hres. f_equal. apply Honly.
  intros k' t' e' Hin' Hk'. cbn in Hin'.
  destruct Hin' as [<-|[<-|[]]]; [discriminate|reflexivity].
Defined.

End AwaitObjFacts.

(* ================================================================== *)
(** * Properties of pipeTap *)
(* ================================================================== *)

Module PipeTapFacts.
Import JS PipeTap Fixtures.

(** C9: with the steps [f1 = (init) => init + 1],
    [f2 = (init, prev) => prev + 10], [f3 = (init, prev) => prev * 2] and
    the input [10], the steps receive [(10, undefined)], [(10, 11)] and
    [(10, 21)] in turn, and the pipeline returns [42]. *)
Theorem pipeTap_example :
  pipeTap f1 [Some f2; Some f3; None; None; None; None] (VNum 10) =
  (VNum 42, [(VNum 10, VUndef); (VNum 10, VNum 11); (VNum 10, VNum 21)]).
Proof. reflexivity. Qed.

End PipeTapFacts.

(* ================================================================== *)
(** * Further properties of the matcher engine *)
(* ================================================================== *)

Module MatchMore.
Import JS Match.

Section More.
Variable fenv : nat -> list val -> val.
Variable json_stringify : val -> string.

(** [isPrimitive(null)] is false ([typeof null] is 'object'), and
    [isObject(null)] is false too: a [null] matcher matches nothing, not
    even [null]. *)
Theorem null_matcher_matches_nothing (value : val) :
  matchValue fenv value VNull = false.
Proof. reflexivity. Qed.

(** A primitive matcher other than [null] is compared by [===]: it
    matches exactly the identical primitive, with no coercion ([0] does
    not match ["0"] or [false]). *)
Theorem primitive_matcher_strict (p value : val) :
  is_js_primitive p = true -> p <> VNull ->
  matchValue fenv value p = true <-> value = p.
Proof.
  intros Hp Hn.
  destruct p; try discriminate; try congruence;
    cbn; destruct value; cbn; split; intros H; try discriminate; try congruence.
  - apply Bool.eqb_prop in H. congruence.
  - injection H as ->. apply Bool.eqb_reflx.
  - apply Z.eqb_eq in H. congruence.
  - injection H as ->. apply Z.eqb_refl.
  - apply String.eqb_eq in H. congruence.
  - injection H as ->. apply String.eqb_refl.
Qed.

Lemma every_idx_forallb (value : val) (ms : list val) :
  forall i,
  (fix every_idx (i : nat) (ms : list val) : bool :=
     match ms with
     | [] => true
     | m :: rest => matchValue fenv (get_prop value (index_key i)) m && every_idx (S i) rest
     end) i ms =
  forallb (fun '(j, m) => matchValue fenv (get_prop value (index_key j)) m)
          (zip (seq i (length ms)) ms).
Proof.
  induction ms as [|m ms IH]; intros i; [reflexivity|].
  cbn. now rewrite IH.
Qed.

(** An array matcher that is not a pair matched against a pair (a matcher
    of another length, or a pair matcher against an object that is not a
    pair) checks [value[i]] against its [i]-th entry, for every index [i]
    of the matcher: longer arrays, and plain objects with keys "0", "1",
    ..., can match. *)
Theorem array_matcher_index_check (ms : list val) (value : val) :
  isObject value = true ->
  ~ (length ms = 2%nat /\ isTuple value = true) ->
  matchValue fenv value (VArr ms) =
  forallb (fun '(j, m) => matchValue fenv (get_prop value (index_key j)) m)
          (zip (seq 0 (length ms)) ms).
Proof.
  intros Hobj Hnt.
  assert (Htup : isTuple (VArr ms) && isTuple value = false).
  { cbn. destruct (Nat.eqb_spec (length ms) 2) as [H2|]; [|reflexivity].
    cbn. destruct (isTuple value); [|reflexivity]. exfalso. tauto. }
  cbn [matchValue]. unfold isPrimitive at 1. cbn [typeof existsb String.eqb negb].
  cbn -[isTuple isObject]. rewrite Htup. rewrite Hobj. cbn.
  apply every_idx_forallb.
Qed.

(** Object and array matchers never match a value that is not a non-null
    object: a primitive, [null] or a function. *)
Theorem structural_matcher_needs_object (value : val) (es : list (string * val)) (ms : list val) :
  isObject value = false ->
  matchValue fenv value (VObj es) = false /\ matchValue fenv value (VArr ms) = false.
Proof.
  intros H. split; cbn [matchValue]; unfold isPrimitive; cbn -[isTuple isObject];
    rewrite H; rewrite ?andb_false_r.
  - reflexivity.
  - destruct value; try discriminate; cbn; rewrite ?andb_false_r; reflexivity.
Qed.

(** A case matches exactly when each of its predicates matches the
    argument at its position; an argument that is not given reads as
    [undefined], and arguments beyond the predicates are ignored. *)
Theorem all_match_positional (predicates values : list val) :
  all_match fenv predicates values 0 = true <->
  (forall i p, nth_error predicates i = Some p -> matchValue fenv (nth i values VUndef) p = true).
Proof.
  assert (Hgen : forall j, all_match fenv predicates values j = true <->
            (forall i p, nth_error predicates i = Some p ->
                         matchValue fenv (nth (j + i) values VUndef) p = true)).
  { induction predicates as [|p0 ps IH]; intros j; cbn.
    - split; [intros _ [|i] p H; discriminate | reflexivity].
    - rewrite andb_true_iff, IH. split.
      + intros [H0 Hr] [|i] p Hp.
        * injection Hp as <-. now rewrite Nat.add_0_r.
        * cbn in Hp. specialize (Hr i p Hp). now rewrite <- Nat.add_succ_comm.
      + intros H. split.
        * rewrite <- (Nat.add_0_r j). now apply H.
        * intros i p Hp. rewrite Nat.add_succ_comm. now apply (H (S i)). }
  apply Hgen.
Qed.

End More.

Lemma primitive_matcher_strict_witness :
  is_js_primitive (VNum 0) = true /\ VNum 0 <> VNull /\
  (matchValue Fixtures.match_test_fns (VStr "0") (VNum 0) = true <-> VStr "0" = VNum 0).
Proof.
  split; [reflexivity|]. split; [discriminate|].
  apply (primitive_matcher_strict Fixtures.match_test_fns (VNum 0) (VStr "0")); [reflexivity|discriminate].
Defined.

Lemma array_matcher_index_check_witness :
  isObject (VArr [VNum 1; VNum 2; VNum 3]) = true /\
  ~ (length [VNum 1; VNum 2] = 2%nat /\ isTuple (VArr [VNum 1; VNum 2; VNum 3]) = true) /\
  matchValue Fixtures.match_test_fns (VArr [VNum 1; VNum 2; VNum 3]) (VArr [VNum 1; VNum 2]) =
  forallb (fun '(j, m) => matchValue Fixtures.match_test_fns
                             (get_prop (VArr [VNum 1; VNum 2; VNum 3]) (index_key j)) m)
          (zip (seq 0 (length [VNum 1; VNum 2])) [VNum 1; VNum 2]).
Proof.
  split; [reflexivity|]. split; [intros [_ H]; discriminate|].
  apply (array_matcher_index_check Fixtures.match_test_fns (fun _ => "") [VNum 1; VNum 2] (VArr [VNum 1; VNum 2; VNum 3])).
  - reflexivity.
  - intros [_ H]. discriminate.
Defined.

Lemma structural_matcher_needs_object_witness :
  isObject (VNum 5) = false /\
  matchValue Fixtures.match_test_fns (VNum 5) (VObj []) = false /\
  matchValue Fixtures.match_test_fns (VNum 5) (VArr []) = false.
Proof.
  split; [reflexivity|].
  apply (structural_matcher_needs_object Fixtures.match_test_fns (VNum 5) [] []). reflexivity.
Defined.

End MatchMore.

(* ================================================================== *)
(** * Further properties of evolve *)
(* ================================================================== *)

Module EvolveMore.
Import JS Utils Evolve EvolveFacts.

Lemma assoc_lookup_absent (es : list (string * val)) (k : string) :
  ~ In k (map fst es) -> assoc_lookup es k = VUndef.
Proof.
  induction es as [|[k' v'] es IH]; intros Hn; [reflexivity|]. cbn.
  destruct (String.eqb_spec k' k) as [->|]; [exfalso; apply Hn; now left|].
  apply IH. intros H. apply Hn. now right.
Qed.

Lemma filter_ext_elem {A} (P1 P2 : A -> Prop) `{!forall x, Decision (P1 x)}
    `{!forall x, Decision (P2 x)} (l : list A) :
  (forall x, x ∈ l -> P1 x <-> P2 x) -> filter P1 l = filter P2 l.
Proof.
  induction l as [|x l IH]; intros Hl; [reflexivity|].
  rewrite !filter_cons, IH by (intros y Hy; apply Hl; now apply list_elem_of_further).
  destruct (decide (P1 x)) as [H1|H1], (decide (P2 x)) as [H2|H2]; try reflexivity;
    exfalso; pose proof (Hl x (list_elem_of_here x l)); tauto.
Qed.

Lemma index_key_not_length (i : nat) : index_key i <> "length".
Proof. unfold index_key. destruct (Nat.to_uint i); discriminate. Qed.

Section More.
Variable fenv : nat -> list val -> val.
Variable evolver : val -> val.

Local Abbreviation step source :=
  (fun acc '(key, spec) =>
     VObj (set_key (spread acc) key
             (fork fenv source (get_prop acc key) spec (evolve fenv evolver spec)))).

Lemma get_prop_step (source acc : val) (key k : string) (spec : val) :
  get_prop (step source acc (key, spec)) k =
  if String.eqb key k then fork fenv source (get_prop acc key) spec (evolve fenv evolver spec)
  else get_prop (VObj (spread acc)) k.
Proof. cbn -[get_prop]. apply get_prop_set_key. Qed.

Lemma fold_absent (source : val) (k : string) :
  forall ses acc, ~ In k (map fst ses) ->
  get_prop (fold_left (step source) ses (VObj acc)) k = get_prop (VObj acc) k.
Proof.
  induction ses as [|[key spec] ses IH]; intros acc Hn; [reflexivity|].
  cbn [fold_left]. cbn [spread own_entries]. rewrite IH.
  - rewrite get_prop_set_key. destruct (String.eqb_spec key k) as [->|]; [|reflexivity].
    exfalso. apply Hn. now left.
  - intros H. apply Hn. now right.
Qed.


Lemma step_keys_elem (source acc : val) (key k : string) (spec : val) :
  k ∈ map fst (own_entries (step source acc (key, spec))) <->
  k ∈ map fst (own_entries acc) \/ k = key.
Proof.
  cbn [own_entries]. unfold spread. rewrite (set_key_keys _ key).
  case_bool_decide as Hin.
  - split; [tauto|]. intros [H| ->]; [exact H|exact Hin].
  - rewrite elem_of_app, list_elem_of_singleton. reflexivity.
Qed.

Lemma fold_keys (source : val) :
  forall ses acc, NoDup (map fst ses) ->
  map fst (own_entries (fold_left (step source) ses acc)) ≡ₚ
  map fst (own_entries acc) ++
    filter (fun k => k ∉ map fst (own_entries acc)) (map fst ses).
Proof.
  induction ses as [|[key spec] ses IH]; intros acc Hnd.
  - cbn. now rewrite app_nil_r.
  - cbn in Hnd. apply NoDup_cons in Hnd as [Hnot Hnd].
    cbn [fold_left]. rewrite (IH _ Hnd).
    rewrite (filter_ext_elem (fun k => k ∉ map fst (own_entries (step source acc (key, spec))))
                             (fun k => k ∉ map fst (own_entries acc))).
    2:{ intros k Hk. rewrite step_keys_elem.
        assert (k <> key) by (intros ->; exact (Hnot Hk)). tauto. }
    cbn [map]. rewrite filter_cons.
    cbn [own_entries]. unfold spread. rewrite (set_key_keys _ key).
    case_bool_decide as Hin.
    + rewrite decide_False by tauto. reflexivity.
    + rewrite decide_True by exact Hin. rewrite <- app_assoc. reflexivity.
Qed.

Lemma fold_named_keys (source : val) :
  forall ses acc, NoDup (map fst ses) ->
  filter (fun k => array_index k = None) (map fst (own_entries (fold_left (step source) ses acc))) =
  filter (fun k => array_index k = None) (map fst (own_entries acc)) ++
    filter (fun k => array_index k = None /\ k ∉ map fst (own_entries acc)) (map fst ses).
Proof.
  induction ses as [|[key spec] ses IH]; intros acc Hnd.
  - cbn. now rewrite app_nil_r.
  - cbn in Hnd. apply NoDup_cons in Hnd as [Hnot Hnd].
    cbn [fold_left]. rewrite (IH _ Hnd).
    rewrite (filter_ext_elem
               (fun k => array_index k = None /\ k ∉ map fst (own_entries (step source acc (key, spec))))
               (fun k => array_index k = None /\ k ∉ map fst (own_entries acc))).
    2:{ intros k Hk. rewrite step_keys_elem.
        assert (k <> key) by (intros ->; exact (Hnot Hk)). tauto. }
    cbn [map]. rewrite filter_cons.
    cbn [own_entries]. unfold spread. rewrite (set_key_named_keys _ key).
    case_bool_decide as Hin.
    + rewrite decide_False by tauto. now rewrite app_nil_r.
    + rewrite <- app_assoc. f_equal.
      destruct (decide (array_index key = None)) as [Hk|Hk].
      * rewrite decide_True by tauto. rewrite filter_cons_True by exact Hk. reflexivity.
      * rewrite decide_False by tauto. rewrite filter_cons_False by exact Hk. reflexivity.
Qed.

(** Extra: a key that the spec does not mention (and that a plain
    object does not inherit) keeps the source's value. *)
Theorem evolve_untouched_key (ses src : list (string * val)) (k : string) :
  ~ In k (map fst ses) -> k ∉ object_proto_keys ->
  get_prop (evolve fenv evolver (VObj ses) (VObj src)) k = get_prop (VObj src) k.
Proof. intros Hn _. rewrite evolve_VObj. now apply fold_absent. Qed.

Lemma fold_is_obj (source : val) :
  forall ses acc, (exists es, acc = VObj es) \/ ses <> [] ->
  exists es, fold_left (step source) ses acc = VObj es.
Proof.
  induction ses as [|[key spec] ses IH]; intros acc Hacc.
  - destruct Hacc as [Hacc|Hacc]; [exact Hacc|congruence].
  - cbn [fold_left]. apply IH. left. eauto.
Qed.




(** Extra: the result is a plain object whose keys are the source's keys
    and the spec keys the source lacks; the keys that are not array
    indices come in the order of the source's keys, then of the new spec
    keys in spec order (array-index keys take their place in the ascending
    order JavaScript gives them). *)
Theorem evolve_keys (ses src : list (string * val)) :
  NoDup (map fst ses) ->
  exists es, evolve fenv evolver (VObj ses) (VObj src) = VObj es /\
    map fst es ≡ₚ map fst src ++ filter (fun k => k ∉ map fst src) (map fst ses) /\
    filter (fun k => array_index k = None) (map fst es) =
      filter (fun k => array_index k = None) (map fst src) ++
      filter (fun k => array_index k = None /\ k ∉ map fst src) (map fst ses).
Proof.
  intros Hnd. rewrite evolve_VObj.
  destruct (fold_is_obj (VObj src) ses (VObj src) (or_introl (ex_intro _ src eq_refl))) as [es Hes].
  exists es. split; [exact Hes|].
  pose proof (fold_keys (VObj src) ses (VObj src) Hnd) as Hk.
  pose proof (fold_named_keys (VObj src) ses (VObj src) Hnd) as Hn.
  rewrite Hes in Hk, Hn. cbn [own_entries] in Hk, Hn. split; [exact Hk|exact Hn].
Qed.


Lemma index_keys_zip (xs : list val) :
  forall i, map fst (zip (map index_key (seq i (length xs))) xs) = map index_key (seq i (length xs)).
Proof. induction xs as [|x xs IH]; intros i; [reflexivity|]. cbn. now rewrite IH. Qed.

(** Extra: an array source with a non-empty spec comes out as a plain
    object, not an array: its keys are the indices "0", "1", ... and the
    spec keys that are not indices, and it has no [length] unless the spec
    sets one. *)
Theorem evolve_array_source (ses : list (string * val)) (xs : list val) :
  NoDup (map fst ses) -> ses <> [] -> "length" ∉ map fst ses ->
  exists es, evolve fenv evolver (VObj ses) (VArr xs) = VObj es /\
    map fst es ≡ₚ map index_key (seq 0 (length xs)) ++
                  filter (fun k => k ∉ map index_key (seq 0 (length xs))) (map fst ses) /\
    get_prop (VObj es) "length" = VUndef.
Proof.
  intros Hnd Hne Hlen.
  change (evolve fenv evolver (VObj ses) (VArr xs)) with (fold_left (step (VArr xs)) ses (VArr xs)).
  destruct (fold_is_obj (VArr xs) ses (VArr xs) (or_intror Hne)) as [es Hes].
  pose proof (fold_keys (VArr xs) ses (VArr xs) Hnd) as Hk.
  rewrite Hes in Hk. cbn [own_entries] in Hk. rewrite index_keys_zip in Hk.
  exists es. split; [exact Hes|]. split; [exact Hk|].
  cbn [get_prop]. apply assoc_lookup_absent. intros Hin.
  apply (Permutation_in _ Hk) in Hin.
  apply in_app_or in Hin as [Hin|Hin].
  - apply in_map_iff in Hin as [i [Hi _]]. exact (index_key_not_length i Hi).
  - apply Hlen. apply list_elem_of_In in Hin. apply list_elem_of_filter in Hin. tauto.
Qed.

End More.

Lemma evolve_untouched_key_witness :
  ~ In "y" (map fst [("z", VFun 0)]) /\ ("y" ∉ object_proto_keys) /\
  get_prop (evolve Fixtures.evolve_test_fns (fun _ => VUndef)
              (VObj [("z", VFun 0)]) (VObj [("x", VNum 1); ("y", VNum 2)])) "y" = VNum 2.
Proof.
  split; [intros [H|[]]; discriminate|]. split; [apply (bool_decide_unpack _); reflexivity|].
  apply (evolve_untouched_key Fixtures.evolve_test_fns (fun _ => VUndef)
           [("z", VFun 0)] [("x", VNum 1); ("y", VNum 2)] "y").
  - intros [H|[]]; discriminate.
  - apply (bool_decide_unpack _). reflexivity.
Defined.



(** The spec [{z: o => o.x + o.y, 1: 5, x: 2}] on [{x: 1, y: 2}]: the
    index key "1" is listed first. *)
Lemma evolve_keys_witness :
  NoDup (map fst [("z", VFun 0); ("1", VNum 5); ("x", VNum 2)]) /\
  evolve Fixtures.evolve_test_fns (fun _ => VUndef)
    (VObj [("z", VFun 0); ("1", VNum 5); ("x", VNum 2)]) (VObj [("x", VNum 1); ("y", VNum 2)])
  = VObj [("1", VUndef); ("x", VNum 1); ("y", VNum 2); ("z", VNum 3)] /\
  exists es, evolve Fixtures.evolve_test_fns (fun _ => VUndef)
               (VObj [("z", VFun 0); ("1", VNum 5); ("x", VNum 2)])
               (VObj [("x", VNum 1); ("y", VNum 2)]) = VObj es /\
    map fst es ≡ₚ map fst [("x", VNum 1); ("y", VNum 2)] ++
                  filter (fun k => k ∉ map fst [("x", VNum 1); ("y", VNum 2)])
                         (map fst [("z", VFun 0); ("1", VNum 5); ("x", VNum 2)]) /\
    filter (fun k => array_index k = None) (map fst es) =
      filter (fun k => array_index k = None) (map fst [("x", VNum 1); ("y", VNum 2)]) ++
      filter (fun k => array_index k = None /\ k ∉ map fst [("x", VNum 1); ("y", VNum 2)])
             (map fst [("z", VFun 0); ("1", VNum 5); ("x", VNum 2)]).
Proof.
  split; [apply (bool_decide_unpack _); reflexivity|]. split; [reflexivity|].
  apply (evolve_keys Fixtures.evolve_test_fns (fun _ => VUndef)
           [("z", VFun 0); ("1", VNum 5); ("x", VNum 2)] [("x", VNum 1); ("y", VNum 2)]).
  apply (bool_decide_unpack _). reflexivity.
Defined.


Lemma evolve_array_source_witness :
  NoDup (map fst [("z", VFun 0)]) /\ [("z", VFun 0)] <> [] /\ ("length" ∉ map fst [("z", VFun 0)]) /\
  exists es, evolve Fixtures.evolve_test_fns (fun _ => VUndef) (VObj [("z", VFun 0)]) (VArr [VNum 7]) = VObj es /\
    map fst es ≡ₚ map index_key (seq 0 (length [VNum 7])) ++
                  filter (fun k => k ∉ map index_key (seq 0 (length [VNum 7]))) (map fst [("z", VFun 0)]) /\
    get_prop (VObj es) "length" = VUndef.
Proof.
  split; [apply (bool_decide_unpack _); reflexivity|]. split; [discriminate|].
  split; [apply (bool_decide_unpack _); reflexivity|].
  apply (evolve_array_source Fixtures.evolve_test_fns (fun _ => VUndef) [("z", VFun 0)] [VNum 7]).
  - apply (bool_decide_unpack _). reflexivity.
  - discriminate.
  - apply (bool_decide_unpack _). reflexivity.
Defined.

End EvolveMore.

(* ================================================================== *)
(** * Further properties of listToTree *)
(* ================================================================== *)

Module ListToTreeMore.
Import ListToTree ListToTreeFacts.

Lemma byId_fold_lookup (l : list item) :
  forall (acc : gmap Z item) i n,
  fold_left (fun acc it => <[id it := it]> acc) l acc !! i = Some n ->
  acc !! i = Some n \/ (In n l /\ id n = i).
Proof.
  induction l as [|it l IH]; intros acc i n Hl; [now left|].
  cbn in Hl. destruct (IH _ _ _ Hl) as [Ha|[Hin Hid]].
  - destruct (decide (id it = i)) as [<-|Hne].
    + rewrite lookup_insert_eq in Ha. injection Ha as <-. right. split; [now left|reflexivity].
    + rewrite lookup_insert_ne in Ha by done. now left.
  - right. split; [now right|exact Hid].
Qed.

(** A record found in [byId] is a record of the list, under its own id. *)
Lemma byId_lookup (items : list item) (i : Z) (n : item) :
  byId items !! i = Some n -> In n items /\ id n = i.
Proof.
  intros H. destruct (byId_fold_lookup items ∅ i n H) as [H'|H']; [|exact H'].
  rewrite lookup_empty in H'. discriminate.
Qed.

Lemma byId_fold_absent (l : list item) (k : Z) :
  forall (acc : gmap Z item), ~ In k (map id l) ->
  fold_left (fun acc it => <[id it := it]> acc) l acc !! k = acc !! k.
Proof.
  induction l as [|it l IH]; intros acc Hn; [reflexivity|]. cbn.
  rewrite IH by (intros H; apply Hn; now right).
  apply lookup_insert_ne. intros Heq. apply Hn. now left.
Qed.

(** With unique ids, every record is found in [byId] under its id. *)
Lemma byId_lookup_nodup (items : list item) (n : item) :
  NoDup (map id items) -> In n items -> byId items !! id n = Some n.
Proof.
  unfold byId. generalize (∅ : gmap Z item) as acc.
  induction items as [|it l IH]; intros acc Hnd Hin; [destruct Hin|].
  cbn in Hnd. apply NoDup_cons in Hnd as [Hnot Hnd]. cbn.
  destruct Hin as [<-|Hin].
  - rewrite byId_fold_absent by (intros H; apply Hnot, list_elem_of_In, H).
    apply lookup_insert_eq.
  - now apply IH.
Qed.

(** [childIdsByParentId] lists, for each parent id, the ids of the
    records with that parent, in the order of the list. *)
Lemma childIds_lookup (items : list item) (p : Z) :
  default [] (childIdsByParentId items !! p) =
  map id (filter (fun it => parent it = Some p) items).
Proof.
  unfold childIdsByParentId.
  assert (Hgen : forall l (acc : gmap Z (list Z)),
    default [] (fold_left
      (fun acc it =>
         match parent it with
         | None => acc
         | Some parentId =>
             match acc !! parentId with
             | Some children => <[parentId := children ++ [id it]]> acc
             | None => <[parentId := [id it]]> acc
             end
         end) l acc !! p) =
    default [] (acc !! p) ++ map id (filter (fun it => parent it = Some p) l)).
  { induction l as [|it l IH]; intros acc; cbn [fold_left].
    - cbn. now rewrite app_nil_r.
    - rewrite IH, filter_cons.
      destruct (parent it) as [q|] eqn:Hp.
      + destruct (decide (Some q = Some p)) as [Hq|Hq].
        * injection Hq as ->.
          destruct (acc !! p) as [children|] eqn:Ha; rewrite lookup_insert_eq; cbn;
            rewrite <-?app_assoc; reflexivity.
        * assert (q <> p) by congruence.
          destruct (acc !! q); rewrite lookup_insert_ne by done; reflexivity.
      + rewrite decide_False by discriminate. reflexivity. }
  rewrite Hgen. reflexivity.
Qed.

Lemma map_build_ok (g : Z -> result tree) (l : list Z) (ts : list tree) :
  map_build g l = Ok ts -> Forall2 (fun c t => g c = Ok t) l ts.
Proof.
  revert ts. induction l as [|c l IH]; intros ts H; cbn in H.
  - injection H as <-. constructor.
  - destruct (g c) as [t|e] eqn:Hg; [|discriminate].
    destruct (map_build g l) as [ts'|e] eqn:Hm; [|discriminate].
    injection H as <-. constructor; [exact Hg | now apply IH].
Qed.

Lemma map_build_err (g : Z -> result tree) (l : list Z) (e : tree_error) :
  map_build g l = Err e -> exists c, In c l /\ g c = Err e.
Proof.
  induction l as [|c l IH]; intros H; cbn in H; [discriminate|].
  destruct (g c) as [t|e'] eqn:Hg.
  - destruct (map_build g l) as [ts|e'] eqn:Hm; [discriminate|].
    injection H as ->. destruct (IH eq_refl) as [c' [Hin Hc']]. exists c'. split; [now right|exact Hc'].
  - injection H as ->. exists c. split; [now left|exact Hg].
Qed.

Lemma build_not_noroot (nodes : gmap Z item) (childIds : gmap Z (list Z)) (fuel : nat) :
  forall i, build nodes childIds fuel i <> Err NoRoot.
Proof.
  induction fuel as [|fuel IH]; intros i; cbn; [discriminate|].
  destruct (nodes !! i) as [node|]; [|discriminate].
  destruct (map_build (build nodes childIds fuel) (default [] (childIds !! i))) as [ch|e] eqn:Hm;
    [discriminate|].
  intros [= ->]. destruct (map_build_err _ _ _ Hm) as [c [_ Hc]]. exact (IH c Hc).
Qed.

Lemma build_linked (items : list item) (Hnd : NoDup (map id items)) (fuel : nat) :
  forall i t, build (byId items) (childIdsByParentId items) fuel i = Ok t ->
  parent_linked items t /\ byId items !! i = Some (root_of t).
Proof.
  induction fuel as [|fuel IH]; intros i t H; cbn in H; [discriminate|].
  destruct (byId items !! i) as [node|] eqn:Hn; [|discriminate].
  destruct (map_build _ (default [] (childIdsByParentId items !! i))) as [ch|e] eqn:Hm;
    [|discriminate].
  injection H as <-. apply map_build_ok in Hm.
  destruct (byId_lookup items i node Hn) as [Hin Hid].
  rewrite childIds_lookup in Hm.
  assert (Hch : forall L, (forall it, In it L -> In it items) ->
            forall ts, Forall2 (fun c t => build (byId items) (childIdsByParentId items) fuel c = Ok t)
                               (map id L) ts ->
            Forall (parent_linked items) ts /\ map root_of ts = L).
  { induction L as [|it L IHL]; intros HL ts H2; cbn [map] in H2.
    - inversion H2. split; [constructor|reflexivity].
    - inversion H2 as [|c t0 l ts' Hc Hrest]; subst.
      destruct (IH _ _ Hc) as [Hl Hr].
      rewrite (byId_lookup_nodup items it Hnd (HL it (or_introl eq_refl))) in Hr.
      injection Hr as Hr.
      destruct (IHL (fun x Hx => HL x (or_intror Hx)) _ Hrest) as [Hf Hmap].
      split; [now constructor|]. cbn. now rewrite <- Hr, Hmap. }
  apply Hch in Hm as [Hf Hmap].
  2:{ intros it Hit. apply list_elem_of_In in Hit. apply list_elem_of_filter in Hit as [_ Hit].
      now apply list_elem_of_In. }
  split; [|reflexivity].
  constructor; [exact Hin| |exact Hf].
  rewrite Hmap, Hid. reflexivity.
Qed.

(** Extra: with unique ids, every tree that [listToTree] returns has the
    shape of the list: each node is a record of the list and its children
    are, in list order, exactly the records whose parent is that node's
    id; the root is the record of the first id with no parent. *)
Theorem listToTree_shape (items : list item) (t : tree) :
  NoDup (map id items) -> listToTree items = Ok t ->
  parent_linked items t /\ rootId items = Some (id (root_of t)).
Proof.
  intros Hnd. unfold listToTree. destruct (rootId items) as [r|] eqn:Hr; [|discriminate].
  intros H. destruct (build_linked items Hnd _ r t H) as [Hl Hid]. split; [exact Hl|].
  destruct (byId_lookup _ _ _ Hid) as [_ ->]. reflexivity.
Qed.

(** Extra: [listToTree] throws 'no root node found' exactly when every
    record has a parent reference. *)
Theorem listToTree_no_root_iff (items : list item) :
  listToTree items = Err NoRoot <-> Forall (fun it => parent it <> None) items.
Proof.
  unfold listToTree, rootId.
  change (fun it => match parent it with None => true | Some _ => false end) with is_rootless.
  split.
  - destruct (find is_rootless items) as [it|] eqn:Hf.
    + intros H. exfalso. exact (build_not_noroot _ _ _ _ H).
    + intros _. apply Forall_forall. intros it Hin Hp. apply list_elem_of_In in Hin.
      pose proof (find_none _ _ Hf it Hin) as H. unfold is_rootless in H. rewrite Hp in H. discriminate.
  - intros Hall. destruct (find is_rootless items) as [it|] eqn:Hf; [|reflexivity].
    exfalso. destruct (find_some _ _ Hf) as [Hin Hroot].
    rewrite Forall_forall in Hall. apply (Hall it (proj2 (list_elem_of_In _ _) Hin)).
    unfold is_rootless in Hroot. destruct (parent it); [discriminate|reflexivity].
Qed.

Lemma ancestry_det (nodes : gmap Z item) (i : Z) (p1 : list Z) :
  ancestry nodes i p1 -> forall p2, ancestry nodes i p2 -> p1 = p2.
Proof.
  induction 1 as [i n Hn Hp|i n p path Hn Hp Ha IH]; intros p2 H2; inversion H2; subst.
  - reflexivity.
  - congruence.
  - congruence.
  - match goal with H1 : nodes !! i = Some ?m, H3 : parent ?m = Some ?q |- _ =>
      rewrite Hn in H1; injection H1 as <-; rewrite Hp in H3; injection H3 as <- end.
    f_equal. now apply IH.
Qed.

Lemma ancestry_suffix (nodes : gmap Z item) (i : Z) (path : list Z) :
  ancestry nodes i path ->
  forall j, In j path -> exists q, ancestry nodes j q /\ (length q < length path)%nat.
Proof.
  induction 1 as [i n Hn Hp|i n p path Hn Hp Ha IH]; intros j Hj; [destruct Hj|].
  destruct Hj as [<-|Hj].
  - exists path. split; [exact Ha|cbn; lia].
  - destruct (IH j Hj) as [q [Hq Hl]]. exists q. split; [exact Hq|cbn; lia].
Qed.

Lemma ancestry_nodup (nodes : gmap Z item) (i : Z) (path : list Z) :
  ancestry nodes i path -> NoDup (i :: path).
Proof.
  intros H. induction H as [i n Hn Hp|i n p path Hn Hp Ha IH].
  - constructor; [apply not_elem_of_nil|constructor].
  - constructor; [|exact IH].
    intros Hin. apply list_elem_of_In in Hin.
    assert (Hself : ancestry nodes i (p :: path)) by (econstructor; eauto).
    destruct Hin as [<-|Hin].
    + pose proof (ancestry_det _ _ _ Hself _ Ha) as Heq.
      apply (f_equal (@length Z)) in Heq. cbn in Heq. lia.
    + destruct (ancestry_suffix _ _ _ Ha i Hin) as [q [Hq Hl]].
      pose proof (ancestry_det _ _ _ Hself _ Hq) as <-. cbn in Hl. lia.
Qed.

Lemma ancestry_ids (items : list item) (i : Z) (path : list Z) :
  ancestry (byId items) i path -> forall j, In j (i :: path) -> In j (map id items).
Proof.
  induction 1 as [i n Hn Hp|i n p path Hn Hp Ha IH]; intros j Hj.
  - destruct Hj as [<-|[]]. destruct (byId_lookup _ _ _ Hn) as [Hin <-]. now apply in_map.
  - destruct Hj as [<-|Hj]; [|now apply IH].
    destruct (byId_lookup _ _ _ Hn) as [Hin <-]. now apply in_map.
Qed.

Lemma build_no_overflow (items : list item) (Hnd : NoDup (map id items)) (fuel : nat) :
  forall i path, ancestry (byId items) i path ->
  (length path + fuel = S (length items))%nat ->
  build (byId items) (childIdsByParentId items) fuel i <> Err StackOverflow.
Proof.
  induction fuel as [|fuel IH]; intros i path Ha Hlen.
  - exfalso.
    pose proof (NoDup_incl_length (proj1 (NoDup_ListNoDup _) (ancestry_nodup _ _ _ Ha))
                                  (ancestry_ids _ _ _ Ha)) as Hle.
    rewrite length_map in Hle. cbn in Hle. lia.
  - cbn. destruct (byId items !! i) as [node|] eqn:Hn; [|discriminate].
    destruct (map_build _ (default [] (childIdsByParentId items !! i))) as [ch|e] eqn:Hm;
      [discriminate|].
    intros [= ->]. destruct (map_build_err _ _ _ Hm) as [c [Hc Hb]].
    rewrite childIds_lookup in Hc. apply in_map_iff in Hc as [it [<- Hit]].
    apply list_elem_of_In in Hit. apply list_elem_of_filter in Hit as [Hpar Hit].
    apply list_elem_of_In in Hit.
    refine (IH (id it) (i :: path) _ _ Hb); [|cbn; lia].
    econstructor; [apply byId_lookup_nodup; eauto|exact Hpar|exact Ha].
Qed.

(** Extra: with unique ids, [listToTree] always terminates (no record
    is built twice on a path, so the recursion cannot loop): it throws
    'no root node found' when no record is parentless, and otherwise
    returns a tree whose root is the first parentless record. *)
Theorem listToTree_unique_ids (items : list item) :
  NoDup (map id items) ->
  match find is_rootless items with
  | None => listToTree items = Err NoRoot
  | Some r => exists t, listToTree items = Ok t /\ root_of t = r
  end.
Proof.
  intros Hnd. unfold listToTree, rootId.
  change (fun it => match parent it with None => true | Some _ => false end) with is_rootless.
  destruct (find is_rootless items) as [r|] eqn:Hf; [|reflexivity].
  destruct (find_some _ _ Hf) as [Hin Hroot].
  pose proof (byId_lookup_nodup items r Hnd Hin) as Hlook.
  destruct (build (byId items) (childIdsByParentId items) (S (length items)) (id r)) as [t|e] eqn:Hb.
  - exists t. split; [reflexivity|].
    cbn in Hb. rewrite Hlook in Hb.
    destruct (map_build _ _); [|discriminate]. now injection Hb as <-.
  - exfalso. destruct e as [|j|].
    + exact (build_not_noroot _ _ _ _ Hb).
    + refine (build_no_missing_node (byId items) (childIdsByParentId items) _ _ (id r) j _ Hb).
      * intros p cs c Hp Hc. apply byId_has_items. exact (childIds_are_items items p cs c Hp Hc).
      * rewrite Hlook. eauto.
    + refine (build_no_overflow items Hnd _ (id r) [] _ _ Hb); [|reflexivity].
      econstructor; [exact Hlook|]. unfold is_rootless in Hroot.
      destruct (parent r); [discriminate|reflexivity].
Qed.

Lemma listToTree_shape_witness :
  NoDup (map id [Item 1 None []; Item 2 (Some 1) []; Item 3 (Some 1) []]) /\
  listToTree [Item 1 None []; Item 2 (Some 1) []; Item 3 (Some 1) []] =
    Ok (Node (Item 1 None []) [Node (Item 2 (Some 1) []) []; Node (Item 3 (Some 1) []) []]) /\
  parent_linked [Item 1 None []; Item 2 (Some 1) []; Item 3 (Some 1) []]
    (Node (Item 1 None []) [Node (Item 2 (Some 1) []) []; Node (Item 3 (Some 1) []) []]) /\
  rootId [Item 1 None []; Item 2 (Some 1) []; Item 3 (Some 1) []] = Some 1.
Proof.
  split; [apply (bool_decide_unpack _); reflexivity|]. split; [reflexivity|].
  apply (listToTree_shape [Item 1 None []; Item 2 (Some 1) []; Item 3 (Some 1) []]
           (Node (Item 1 None []) [Node (Item 2 (Some 1) []) []; Node (Item 3 (Some 1) []) []])).
  - apply (bool_decide_unpack _). reflexivity.
  - reflexivity.
Defined.

Lemma listToTree_unique_ids_witness :
  NoDup (map id [Item 2 (Some 1) []; Item 1 None []]) /\
  exists t, listToTree [Item 2 (Some 1) []; Item 1 None []] = Ok t /\ root_of t = Item 1 None [].
Proof.
  split; [apply (bool_decide_unpack _); reflexivity|].
  apply (listToTree_unique_ids [Item 2 (Some 1) []; Item 1 None []]).
  apply (bool_decide_unpack _). reflexivity.
Defined.

End ListToTreeMore.

(* ================================================================== *)
(** * Further properties of awaitObj *)
(* ================================================================== *)

Module AwaitObjMore.
Import JS AwaitObj EvolveMore.

Lemma to_uint_not_nil (n : nat) : Nat.to_uint n <> Decimal.Nil.
Proof.
  intros H. pose proof (DecimalNat.Unsigned.of_to n) as Hn. rewrite H in Hn.
  cbn in Hn. subst n. discriminate H.
Qed.

(** Distinct indices have distinct property keys. *)
Lemma index_key_inj (a b : nat) : index_key a = index_key b -> a = b.
Proof.
  unfold index_key. intros H.
  apply (f_equal NilZero.uint_of_string) in H.
  rewrite !NilZero.usu in H by apply to_uint_not_nil.
  injection H as H. exact (DecimalNat.Unsigned.to_uint_inj _ _ H).
Qed.

Lemma index_lookup_seq (xs : list val) :
  forall j, map (index_lookup j xs) (map index_key (seq j (length xs))) = xs.
Proof.
  induction xs as [|x xs IH]; intros j; [reflexivity|].
  cbn [length seq map index_lookup]. rewrite String.eqb_refl. f_equal.
  rewrite <- (IH (S j)) at 2. apply map_ext_in. intros k Hk.
  apply in_map_iff in Hk as [m [<- Hm]]. apply in_seq in Hm.
  cbn. destruct (String.eqb_spec (index_key j) (index_key m)) as [He|]; [|reflexivity].
  apply index_key_inj in He. lia.
Qed.

Lemma first_rejection_all_none (values : list val) :
  (forall v, In v values -> rejection v = None) -> first_rejection values = None.
Proof.
  induction values as [|v values IH]; intros H; [reflexivity|]. cbn.
  rewrite (H v (or_introl eq_refl)). apply IH. intros w Hw. apply H. now right.
Qed.

(** Extra: on an array, [awaitObj] settles as [Promise.all] on its
    elements: it rejects with the first rejection, and otherwise fulfils
    with a plain object (not an array) keyed "0", "1", ... holding the
    resolved elements in order. *)
Theorem awaitObj_array (xs : list val) :
  awaitObj (VArr xs) =
  match first_rejection xs with
  | Some (_, e) => Rejected e
  | None => Fulfilled (VObj (zip (map index_key (seq 0 (length xs))) (map resolve_value xs)))
  end.
Proof.
  unfold awaitObj. cbn [own_entries]. rewrite index_keys_zip.
  assert (Hget : map (get_prop (VArr xs)) (map index_key (seq 0 (length xs))) = xs).
  { transitivity (map (index_lookup 0 xs) (map index_key (seq 0 (length xs))));
      [|apply index_lookup_seq].
    apply map_ext_in. intros k Hk.
    apply in_map_iff in Hk as [m [<- _]]. cbn.
    destruct (String.eqb_spec (index_key m) "length") as [Hl|]; [|reflexivity].
    exfalso. exact (index_key_not_length m Hl). }
  rewrite Hget. destruct (first_rejection xs) as [[t e]|]; [reflexivity|].
  do 2 f_equal.
  assert (Hzip : forall ks, map (fun key => (key, resolve_value (get_prop (VArr xs) key))) ks =
                            zip ks (map resolve_value (map (get_prop (VArr xs)) ks))).
  { induction ks as [|k ks IH]; [reflexivity|]. cbn [map]. rewrite IH. reflexivity. }
  now rewrite Hzip, Hget.
Qed.

End AwaitObjMore.

(* ================================================================== *)
(** * Further properties of pipeTap *)
(* ================================================================== *)

Module PipeTapMore.
Import JS PipeTap.

Section More.
Variable arg : val.

(** The reducer of [pipeTap], for the input [arg]. *)
Local Abbreviation reducer :=
  (fun (acc : val * trace) (currentFn : step) =>
     let (result, tr) := acc in
     match result with
     | VProm _ _ _ =>
         let (r, tr') := then_ result (fun resolvedResult =>
                           (currentFn arg resolvedResult, [(arg, resolvedResult)])) in
         (r, tr ++ tr')
     | _ => (currentFn arg result, tr ++ [(arg, result)])
     end).

Lemma pipeTap_fold (fn1 : step) (rest : list (option step)) :
  pipeTap fn1 rest arg = fold_left reducer (given rest) (fn1 arg VUndef, [(arg, VUndef)]).
Proof. reflexivity. Qed.

Lemma fold_rejected (t : nat) (e : val) :
  forall fns tr, fold_left reducer fns (VProm t false e, tr) = (VProm t false e, tr).
Proof.
  induction fns as [|f fns IH]; intros tr; [reflexivity|].
  cbn [fold_left]. cbn [then_]. rewrite app_nil_r. apply IH.
Qed.

(** Extra: when the first step returns a rejected promise, no later step
    is called and the pipeline returns that rejection. *)
Theorem pipeTap_rejection_short_circuits (fn1 : step) (rest : list (option step)) (t : nat) (e : val) :
  fn1 arg VUndef = VProm t false e ->
  pipeTap fn1 rest arg = (VProm t false e, [(arg, VUndef)]).
Proof. intros H. rewrite pipeTap_fold, H. apply fold_rejected. Qed.

Lemma run_cons (f : step) (fns : list step) (v : val) :
  run arg (f :: fns) v = v :: run arg fns (f arg v).
Proof. reflexivity. Qed.

Lemma removelast_cons_run (r : val) (fns : list step) (v : val) :
  removelast (r :: run arg fns v) = r :: removelast (run arg fns v).
Proof. destruct fns; reflexivity. Qed.

Lemma fold_sync (fns : list step) :
  forall r tr, Forall (fun v => is_promise v = false) (removelast (run arg fns r)) ->
  fold_left reducer fns (r, tr) =
  (fold_left (fun r f => f arg r) fns r, tr ++ map (fun v => (arg, v)) (removelast (run arg fns r))).
Proof.
  induction fns as [|f fns IH]; intros r tr Hs.
  - cbn. now rewrite app_nil_r.
  - rewrite run_cons in Hs |- *.
    rewrite removelast_cons_run in Hs |- *.
    apply Forall_cons in Hs as [Hr Hs].
    assert (Hstep : fold_left reducer (f :: fns) (r, tr) =
                    fold_left reducer fns (f arg r, tr ++ [(arg, r)])).
    { destruct r as [| | | | | | | | |t ok w]; try reflexivity. discriminate Hr. }
    rewrite Hstep, (IH _ _ Hs). cbn [map]. now rewrite <- app_assoc.
Qed.

(** Extra: as long as no step's result that is passed on is a promise,
    the pipeline computes [fn_n(arg, ... fn2(arg, fn1(arg, undefined)))]
    over the steps that are given, each of them called exactly once, in
    order, with [arg] and the result of the step before it (the last
    step's result may be anything, a promise included). *)
Theorem pipeTap_sync (fn1 : step) (rest : list (option step)) :
  Forall (fun v => is_promise v = false) (removelast (run arg (given rest) (fn1 arg VUndef))) ->
  pipeTap fn1 rest arg =
  (fold_left (fun r f => f arg r) (given rest) (fn1 arg VUndef),
   (arg, VUndef) :: map (fun v => (arg, v)) (removelast (run arg (given rest) (fn1 arg VUndef)))).
Proof. intros Hs. rewrite pipeTap_fold. now apply fold_sync. Qed.

Lemma fold_lift (t : nat) (fns : list step) :
  forall w tr, Forall (fun v => is_promise v = false) (tl (run arg fns w)) ->
  fst (fold_left reducer fns (VProm t true w, tr)) = VProm t true (fold_left (fun r f => f arg r) fns w).
Proof.
  induction fns as [|f fns IH]; intros w tr Hs; [reflexivity|].
  rewrite run_cons in Hs. cbn [tl] in Hs.
  assert (Hf : is_promise (f arg w) = false).
  { destruct fns; cbn in Hs; inversion Hs; assumption. }
  assert (Hs' : Forall (fun v => is_promise v = false) (tl (run arg fns (f arg w)))).
  { destruct fns; cbn in Hs |- *; [constructor|]. now inversion Hs. }
  assert (Hstep : exists tr', fold_left reducer (f :: fns) (VProm t true w, tr) =
                              fold_left reducer fns (VProm t true (f arg w), tr')).
  { cbn [fold_left then_]. destruct (f arg w) as [| | | | | | | | |t' ok' w'] eqn:Hfw;
      try (eexists; reflexivity). discriminate Hf. }
  destruct Hstep as [tr' ->]. now apply IH.
Qed.

(** Extra: when the first step returns a promise fulfilled with [w] and
    none of the later steps returns a promise in the run from [w] (steps
    that pass [prev] on included), the pipeline returns a promise, with
    the same settle time, fulfilled with what the later steps compute from
    [w]. *)
Theorem pipeTap_promise_lift (fn1 : step) (rest : list (option step)) (t : nat) (w : val) :
  fn1 arg VUndef = VProm t true w ->
  Forall (fun v => is_promise v = false) (tl (run arg (given rest) w)) ->
  fst (pipeTap fn1 rest arg) = VProm t true (fold_left (fun r f => f arg r) (given rest) w).
Proof. intros H1 Hs. rewrite pipeTap_fold, H1. now apply fold_lift. Qed.

End More.

Lemma pipeTap_rejection_short_circuits_witness :
  (fun (_ _ : val) => VProm 3 false (VStr "boom")) (VNum 10) VUndef = VProm 3 false (VStr "boom") /\
  pipeTap (fun _ _ => VProm 3 false (VStr "boom")) [Some Fixtures.f2; Some Fixtures.f3] (VNum 10)
  = (VProm 3 false (VStr "boom"), [(VNum 10, VUndef)]).
Proof.
  split; [reflexivity|].
  apply (pipeTap_rejection_short_circuits (VNum 10) (fun _ _ => VProm 3 false (VStr "boom"))
           [Some Fixtures.f2; Some Fixtures.f3] 3 (VStr "boom")).
  reflexivity.
Defined.

(** The example's steps with a tap step [(init, prev) => prev] between
    [f2] and [f3]. *)
Lemma pipeTap_sync_witness :
  Forall (fun v => is_promise v = false)
    (removelast (run (VNum 10) (given [Some Fixtures.f2; Some (fun _ prev => prev); None; Some Fixtures.f3])
                   (Fixtures.f1 (VNum 10) VUndef))) /\
  pipeTap Fixtures.f1 [Some Fixtures.f2; Some (fun _ prev => prev); None; Some Fixtures.f3] (VNum 10) =
  (VNum 42, [(VNum 10, VUndef); (VNum 10, VNum 11); (VNum 10, VNum 21); (VNum 10, VNum 21)]).
Proof.
  assert (Hs : Forall (fun v => is_promise v = false)
                 (removelast (run (VNum 10) (given [Some Fixtures.f2; Some (fun _ prev => prev); None;
                                                    Some Fixtures.f3])
                                (Fixtures.f1 (VNum 10) VUndef)))).
  { repeat constructor. }
  split; [exact Hs|].
  rewrite (pipeTap_sync (VNum 10) Fixtures.f1
             [Some Fixtures.f2; Some (fun _ prev => prev); None; Some Fixtures.f3] Hs).
  reflexivity.
Defined.

(** A first step that returns a promise, then [f2], a tap step and [f3]. *)
Lemma pipeTap_promise_lift_witness :
  Forall (fun v => is_promise v = false)
    (tl (run (VNum 10) (given [Some Fixtures.f2; Some (fun _ prev => prev); Some Fixtures.f3]) (VNum 11))) /\
  fst (pipeTap (fun x _ => VProm 5 true (match x with VNum n => VNum (n + 1) | _ => VUndef end))
               [Some Fixtures.f2; Some (fun _ prev => prev); Some Fixtures.f3] (VNum 10))
  = VProm 5 true (VNum 42).
Proof.
  assert (Hs : Forall (fun v => is_promise v = false)
                 (tl (run (VNum 10) (given [Some Fixtures.f2; Some (fun _ prev => prev); Some Fixtures.f3])
                        (VNum 11)))).
  { repeat constructor. }
  split; [exact Hs|].
  rewrite (pipeTap_promise_lift (VNum 10)
             (fun x _ => VProm 5 true (match x with VNum n => VNum (n + 1) | _ => VUndef end))
             [Some Fixtures.f2; Some (fun _ prev => prev); Some Fixtures.f3] 5 (VNum 11)).
  - reflexivity.
  - reflexivity.
  - exact Hs.
Defined.

End PipeTapMore.

(* ================================================================== *)
(** * Properties of traverse *)
(* ================================================================== *)

Module TraverseFacts.
Import JS Traverse.

(** Induction on values, through the elements of arrays and the
    properties of plain objects. *)
Lemma val_deep_ind (P : val -> Prop)
  (HU : P VUndef) (HN : P VNull) (HB : forall b, P (VBool b)) (HZ : forall n, P (VNum n))
  (HS : forall s, P (VStr s))
  (HA : forall xs, Forall P xs -> P (VArr xs))
  (HO : forall es, Forall (fun e => P (snd e)) es -> P (VObj es))
  (HD : forall t, P (VDate t)) (HF : forall f, P (VFun f))
  (HP : forall t b v, P v -> P (VProm t b v)) :
  forall v, P v.
Proof.
  fix IH 1. intros [| | b | n | s | xs | es | t | f | t b v].
  - exact HU.
  - exact HN.
  - apply HB.
  - apply HZ.
  - apply HS.
  - apply HA. induction xs as [|x xs IHxs]; constructor; [apply IH|exact IHxs].
  - apply HO. induction es as [|[k x] es IHes]; constructor; [apply IH|exact IHes].
  - apply HD.
  - apply HF.
  - apply HP. apply IH.
Qed.

Lemma traverse_leaf (fn : val -> val -> val) (c v key : val) :
  is_leaf v = true -> traverse fn c v key = fn v key.
Proof. destruct v; try discriminate; reflexivity. Qed.

(** Extra: a leaf function that returns every leaf unchanged makes
    [traverse] the identity on values with no [undefined] inside. *)
Theorem traverse_identity (fn : val -> val -> val) (c : val) :
  (forall v key, is_leaf v = true -> fn v key = v) ->
  forall x key, no_undefined x = true -> traverse fn c x key = x.
Proof.
  intros Hfn x. induction x as [| | b | n | s | xs IH | es IH | t | f | t b v _]
    using val_deep_ind; intros key Hx; try discriminate;
    try (rewrite traverse_leaf by reflexivity; now apply Hfn).
  - cbn. f_equal. cbn in Hx. rewrite forallb_forall in Hx.
    rewrite Forall_forall in IH.
    rewrite <- (map_id xs) at 2. apply map_ext_in. intros el Hel.
    apply IH; [now apply list_elem_of_In|]. now apply Hx.
  - cbn. f_equal. cbn in Hx. rewrite forallb_forall in Hx.
    rewrite Forall_forall in IH.
    rewrite <- (map_id es) at 2. apply map_ext_in. intros [k el] Hel. f_equal.
    apply (IH (k, el)); [now apply list_elem_of_In|]. exact (Hx (k, el) Hel).
Qed.

(** Extra: two traversals fuse into one when the first leaf function
    maps leaves to leaves: the second leaf function then receives, with
    the same key, what the first returned. *)
Theorem traverse_fusion (f g : val -> val -> val) (c1 c2 c3 : val) :
  (forall v key, is_leaf v = true -> is_leaf (g v key) = true) ->
  forall x key, no_undefined x = true ->
  traverse f c1 (traverse g c2 x key) key = traverse (fun v key => f (g v key) key) c3 x key.
Proof.
  intros Hg x. induction x as [| | b | n | s | xs IH | es IH | t | f' | t b v _]
    using val_deep_ind; intros key Hx; try discriminate;
    try (rewrite !traverse_leaf by (reflexivity || (apply Hg; reflexivity)); reflexivity).
  - cbn. f_equal. cbn in Hx. rewrite forallb_forall in Hx.
    rewrite Forall_forall in IH. rewrite map_map. apply map_ext_in. intros el Hel.
    apply IH; [now apply list_elem_of_In | now apply Hx].
  - cbn. f_equal. cbn in Hx. rewrite forallb_forall in Hx.
    rewrite Forall_forall in IH. rewrite map_map. apply map_ext_in. intros [k el] Hel.
    cbn. f_equal.
    apply (IH (k, el)); [now apply list_elem_of_In | exact (Hx (k, el) Hel)].
Qed.



Lemma traverse_identity_witness :
  traverse (fun v _ => v) VNull (VObj [("a", VArr [VNum 1; VStr "s"]); ("b", VBool true)]) VUndef
  = VObj [("a", VArr [VNum 1; VStr "s"]); ("b", VBool true)].
Proof.
  apply (traverse_identity (fun v _ => v) VNull); [reflexivity|reflexivity].
Defined.

Lemma traverse_fusion_witness :
  traverse (fun v _ => match v with VNum n => VNum (2 * n) | _ => v end) VNull
    (traverse (fun v _ => match v with VNum n => VNum (n + 1) | _ => v end) VNull
       (VObj [("a", VArr [VNum 1; VNum 2])]) VUndef) VUndef
  = VObj [("a", VArr [VNum 4; VNum 6])].
Proof.
  rewrite (traverse_fusion (fun v _ => match v with VNum n => VNum (2 * n) | _ => v end)
             (fun v _ => match v with VNum n => VNum (n + 1) | _ => v end) VNull VNull VNull).
  - reflexivity.
  - intros v key H. destruct v; try discriminate; reflexivity.
  - reflexivity.
Defined.

End TraverseFacts.
